(** * BlenderColorCamera: scene synchronisation with a Blender server

    A shallow embedding of [drake_blender_visualizer/blender_visualizer.py]:
    the [load] method (run once, on the initialization event) and the
    [_DoPublish] method (run on every periodic publish), together with the
    helpers [_parse_name] and [_format_geom_name].

    Python floats are IEEE binary64 numbers and are modelled by Rocq's
    primitive floats; Python strings by [string]; the two dictionaries kept
    on the object by [gmap string _]; exceptions by an error result, those
    of the method's own statements as well as the [RuntimeError] of the
    transform library on a quaternion it rejects and the [TypeError] of a
    call given the keyword [name] twice; the remote calls sent through the
    Blender server interface by a trace that the method bodies extend, one
    entry per call. *)

From Stdlib Require Import ZArith String Ascii List Lia.
From Stdlib Require Import Floats.PrimFloat.
From Stdlib Require Import DecimalString DecimalZ DecimalPos.
From stdpp Require Import base option list gmap strings.

Local Open Scope string_scope.
Local Open Scope list_scope.

(** ** Python values and exceptions *)

(** The exceptions the two methods can raise: those of their own
    statements, [RuntimeError] from the transform library and [TypeError]
    from a call that is given a keyword twice. *)
Inductive exn : Set :=
| AssertionError
| KeyError
| IndexError
| AttributeError
| RuntimeError
| TypeError.

Inductive result (A : Type) : Type :=
| Ok (a : A)
| Raise (e : exn).
Arguments Ok {A} a.
Arguments Raise {A} e.

(** Keyword-argument values that travel to the server. *)
#[warnings="-register-all"]
Inductive pyval : Type :=
| PStr (s : string)
| PInt (z : Z)
| PFloat (x : float)
| PList (l : list pyval).

(** A list of Python floats, e.g. [geom.position] or [x.tolist()]. *)
Definition floats (l : list float) : pyval := PList (map PFloat l).

(** One call made through the server interface: the function name and the
    keyword arguments in the order they are written. *)
Record RemoteCall : Type := mkCall {
  func : string;
  kwargs : list (string * pyval)
}.

(** [k in kw] for a dictionary of keyword arguments. *)
Definition has_key (k : string) (kw : list (string * pyval)) : bool :=
  existsb (λ p, String.eqb p.1 k) kw.

(** ** The quaternion helper *)

(** [reorder_quat_wxyz_to_xyzw] (source lines 41-44): an array is first
    turned into the list of its entries, so one list stands for both; the
    four entries are read in the order 1, 2, 3, 0, and a missing one
    raises [IndexError]. *)
Definition reorder_quat_wxyz_to_xyzw {A} (quat : list A) : result (list A) :=
  match quat !! 1 with
  | None => Raise IndexError
  | Some x =>
      match quat !! 2 with
      | None => Raise IndexError
      | Some y =>
          match quat !! 3 with
          | None => Raise IndexError
          | Some z =>
              match quat !! 0 with
              | None => Raise IndexError
              | Some w => Ok [x; y; z; w]
              end
          end
      end
  end.

(** ** Strings *)

(** [str(z)] for a Python int, as used by [str.format] and [%d]. *)
Definition str_of_int (z : Z) : string := NilZero.string_of_int (Z.to_int z).

(** [s.index(delim)], [None] standing for the [ValueError] of a missing
    delimiter: the position of the first occurrence. *)
Fixpoint str_index (delim s : string) : option nat :=
  if String.prefix delim s then Some 0
  else match s with
       | EmptyString => None
       | String _ s' => option_map S (str_index delim s')
       end.

(** [s[:pos]] and [s[pos:]]. *)
Definition str_take (pos : nat) (s : string) : string := substring 0 pos s.
Definition str_drop (pos : nat) (s : string) : string :=
  substring pos (String.length s - pos) s.

(** [s[0:-3]]: everything but the last three characters. *)
Definition str_drop_last3 (s : string) : string :=
  str_take (String.length s - 3) s.

(** ["%0<w>d" % n] for a non-negative [n]. *)
Fixpoint zeros (n : nat) : string :=
  match n with O => "" | S n' => String "0" (zeros n') end.
Definition zfill (w : nat) (n : nat) : string :=
  let s := str_of_int (Z.of_nat n) in zeros (w - String.length s) +:+ s.

(** [_parse_name]: split on the first (required) occurrence of ["::"]. *)
Definition _parse_name (name : string) : result (string * string) :=
  let delim := "::" in
  match str_index delim name with
  | None => Raise AssertionError
  | Some pos =>
      let source_name := str_take pos name in
      let frame_name := str_drop (pos + String.length delim) name in
      Ok (source_name, frame_name)
  end.

(** [_format_geom_name]: ["{}::{}::{}::{}".format(source_name, model_id,
    frame_name, i)]. *)
Definition _format_geom_name (source_name frame_name : string)
    (model_id : Z) (i : nat) : string :=
  source_name +:+ "::" +:+ str_of_int model_id +:+ "::" +:+ frame_name
    +:+ "::" +:+ str_of_int (Z.of_nat i).

(** ** The messages received from the simulator *)

(** [lcmt_viewer_geometry_data].  The type tags are those of the LCM type;
    [num_float_data] is the length of [float_data], as the LCM decoder reads
    exactly that many entries. *)
Record lcmt_viewer_geometry_data : Type := mkGeom {
  type : Z;
  position : list float;
  quaternion : list float;
  color : list float;
  string_data : string;
  float_data : list float
}.

Definition BOX : Z := 1.
Definition SPHERE : Z := 2.
Definition CYLINDER : Z := 3.
Definition MESH : Z := 4.

Definition num_float_data (geom : lcmt_viewer_geometry_data) : nat :=
  length (float_data geom).

(** [lcmt_viewer_link_data]; [num_geom] is the length of [geom]. *)
Record lcmt_viewer_link_data : Type := mkLink {
  name : string;
  robot_num : Z;
  geom : list lcmt_viewer_geometry_data
}.

Definition num_geom (link : lcmt_viewer_link_data) : nat := length (geom link).

(** [lcmt_viewer_load_robot]: the links, [num_links] being their number. *)
Definition lcmt_viewer_load_robot : Type := list lcmt_viewer_link_data.

(** ** The libraries the visualizer calls *)

(** The rigid-transform operations of pydrake and numpy, kept abstract:
    4x4 homogeneous matrices ([Isometry3] and its [matrix()] are identified),
    [RigidTransform(RotationMatrix(Quaternion(q)), p).GetAsMatrix4()], the
    matrix product, and the translation and [wxyz] quaternion of an
    isometry.  The constructors do not accept everything: [Quaternion(q)]
    raises [RuntimeError] on a quaternion that is not normalised;
    [rejects q p] is the exception that building the transform raises, if
    any, and [GetAsMatrix4 q p] the matrix when there is none. *)
Class PoseLib : Type := {
  Mat4 : Type;
  rejects : list float → list float → option exn;
  GetAsMatrix4 : list float → list float → Mat4;
  dot : Mat4 → Mat4 → Mat4;
  translation : Mat4 → list float;
  quaternion_wxyz : Mat4 → list float
}.

(** What lies outside the process: the value [send_remote_call] returns
    (its truth value, given the calls made so far and the call itself) and
    [os.path.exists]. *)
Class Outside : Type := {
  reply : list RemoteCall → RemoteCall → bool;
  path_exists : string → bool
}.

(** A compiled override rule [(re.compile(x[0]), x[1])]: the pattern text,
    the [match] method of the compiled pattern, and the material arguments
    (the constructor documents that they do not include [name]; nothing
    checks it). *)
Record override : Type := mkOverride {
  pattern : string;
  re_match : string → bool;
  material_args : list (string * pyval)
}.

(** One entry of the pose bundle. *)
Record pose_entry `{PoseLib} : Type := mkPose {
  get_name : string;
  get_model_instance_id : Z;
  get_pose : Mat4
}.
Arguments mkPose {_} _ _ _.

(** ** The object and the monad of its methods *)

(** The attributes of a [BlenderColorCamera].  The two dictionaries do not
    exist before [load] has run ([None]). *)
Record BlenderColorCamera `{PoseLib} : Type := mkSelf {
  current_publish_num : nat;
  material_overrides : list override;
  global_transform : Mat4;
  camera_tfs : list Mat4;
  num_link_geometries_by_link_name : option (gmap string nat);
  link_subgeometry_local_tfs_by_link_name : option (gmap string (list Mat4));
  published_scene : bool
}.
Arguments mkSelf {_} _ _ _ _ _ _ _.

Section Methods.
Context `{L : PoseLib} `{O : Outside}.

(** A method body runs on the object, given the calls the server has
    received so far; it either returns or raises, and yields the object as
    it leaves it and the calls it has sent itself, in order.  An exception
    keeps what was done before it. *)
Definition M (A : Type) : Type :=
  BlenderColorCamera → list RemoteCall →
  result A * BlenderColorCamera * list RemoteCall.

#[export] Instance M_ret : MRet M := λ A a s h, (Ok a, s, []).
#[export] Instance M_bind : MBind M := λ A B k m s h,
  match m s h with
  | (Ok a, s', n) =>
      match k a s' (h ++ n)%list with
      | (r, s'', n') => (r, s'', (n ++ n')%list)
      end
  | (Raise e, s', n) => (Raise e, s', n)
  end.

Definition raise {A} (e : exn) : M A := λ s h, (Raise e, s, []).
Definition lift {A} (r : result A) : M A := λ s h, (r, s, []).
Definition get_self : M BlenderColorCamera := λ s h, (Ok s, s, []).
Definition set_self (s : BlenderColorCamera) : M unit :=
  λ _ h, (Ok tt, s, []).

(** [self.bsi.send_remote_call(func, **kwargs)]; returns the truth value
    of what the interface returned. *)
Definition send_remote_call (f : string) (kw : list (string * pyval))
    : M bool :=
  λ s h, let c := mkCall f kw in (Ok (reply h c), s, [c]).

(** [for i, x in enumerate(l)], counting from [i]. *)
Fixpoint for_enum {A} (body : nat → A → M unit) (i : nat) (l : list A)
    : M unit :=
  match l with
  | [] => mret tt
  | x :: l' => body i x ;; for_enum body (S i) l'
  end.

(** The same loop with a local variable [acc] that the body updates. *)
Fixpoint fold_enum {A St} (body : nat → A → St → M St) (i : nat)
    (l : list A) (acc : St) : M St :=
  match l with
  | [] => mret acc
  | x :: l' => acc' ← body i x acc; fold_enum body (S i) l' acc'
  end.

(** [for j in range(n)]. *)
Definition for_range (n : nat) (body : nat → M unit) : M unit :=
  for_enum (λ _ j, body j) 0 (seq 0 n).

(** [l[i]], [d[k]], [self.attr] and [assert]. *)
Definition py_index {A} (l : list A) (i : nat) : M A :=
  match l !! i with Some x => mret x | None => raise IndexError end.
Definition dict_get {A} (d : gmap string A) (k : string) : M A :=
  match d !! k with Some x => mret x | None => raise KeyError end.
Definition get_attr {A} (attr : option A) : M A :=
  match attr with Some x => mret x | None => raise AttributeError end.
Definition assert_ (b : bool) : M unit :=
  if b then mret tt else raise AssertionError.

(** Attribute assignments. *)
Definition set_num_link_geometries_by_link_name
    (d : gmap string nat) : M unit :=
  s ← get_self;
  set_self (mkSelf (current_publish_num s) (material_overrides s)
    (global_transform s) (camera_tfs s) (Some d)
    (link_subgeometry_local_tfs_by_link_name s) (published_scene s)).
Definition set_link_subgeometry_local_tfs_by_link_name
    (d : gmap string (list Mat4)) : M unit :=
  s ← get_self;
  set_self (mkSelf (current_publish_num s) (material_overrides s)
    (global_transform s) (camera_tfs s) (num_link_geometries_by_link_name s)
    (Some d) (published_scene s)).
Definition set_published_scene (b : bool) : M unit :=
  s ← get_self;
  set_self (mkSelf (current_publish_num s) (material_overrides s)
    (global_transform s) (camera_tfs s) (num_link_geometries_by_link_name s)
    (link_subgeometry_local_tfs_by_link_name s) b).
Definition set_current_publish_num (n : nat) : M unit :=
  s ← get_self;
  set_self (mkSelf n (material_overrides s)
    (global_transform s) (camera_tfs s) (num_link_geometries_by_link_name s)
    (link_subgeometry_local_tfs_by_link_name s) (published_scene s)).

(** *** [load] *)

(** [self.bsi.send_remote_call("register_material", name=material_key,
    **args)]: a dictionary [args] that has the key [name] itself makes the
    call raise [TypeError] (the keyword is given twice) before anything is
    sent. *)
Definition register_material_with (material_key : string)
    (args : list (string * pyval)) : M bool :=
  if has_key "name" args then raise TypeError
  else send_remote_call "register_material"
         (("name", PStr material_key) :: args).

(** The loop over [self.material_overrides] (source lines 178-185): every
    rule whose pattern matches sends its own [register_material]. *)
Fixpoint check_overrides (material_key geom_name : string)
    (overrides : list override) (material_key_assigned : bool) : M bool :=
  match overrides with
  | [] => mret material_key_assigned
  | override :: rest =>
      if re_match override geom_name then
        register_material_with material_key (material_args override);;
        check_overrides material_key geom_name rest true
      else check_overrides material_key geom_name rest material_key_assigned
  end.

(** The four [do_load_geom] closures; each is run only at the end of the
    loop body, once the material has been registered. *)
Definition do_load_geom_box (geom : lcmt_viewer_geometry_data)
    (geom_name material_key : string) : M bool :=
  send_remote_call "register_object"
    [("name", PStr ("obj_" +:+ geom_name));
     ("type", PStr "cube");
     ("scale", floats (map (λ x, x * 0.5)%float (take 3 (float_data geom))));
     ("location", floats (position geom));
     ("quaternion", floats (quaternion geom));
     ("material", PStr material_key)].

Definition do_load_geom_sphere (geom : lcmt_viewer_geometry_data)
    (geom_name material_key : string) : M bool :=
  r ← py_index (float_data geom) 0;
  send_remote_call "register_object"
    [("name", PStr ("obj_" +:+ geom_name));
     ("type", PStr "sphere");
     ("scale", PFloat r);
     ("location", floats (position geom));
     ("quaternion", floats (quaternion geom));
     ("material", PStr material_key)].

Definition do_load_geom_cylinder (geom : lcmt_viewer_geometry_data)
    (geom_name material_key : string) : M bool :=
  r ← py_index (float_data geom) 0;
  r' ← py_index (float_data geom) 0;
  h ← py_index (float_data geom) 1;
  send_remote_call "register_object"
    [("name", PStr ("obj_" +:+ geom_name));
     ("type", PStr "cylinder");
     ("scale", floats [r; r'; (0.5 * h)%float]);
     ("location", floats (position geom));
     ("quaternion", floats (quaternion geom));
     ("material", PStr material_key)].

Definition do_load_geom_mesh (geom : lcmt_viewer_geometry_data)
    (geom_name material_key : string) : M bool :=
  send_remote_call "register_object"
    [("name", PStr ("obj_" +:+ geom_name));
     ("type", PStr "obj");
     ("path", PStr (str_drop_last3 (string_data geom) +:+ "obj"));
     ("scale", floats (take 3 (float_data geom)));
     ("location", floats (position geom));
     ("quaternion", floats (quaternion geom));
     ("material", PStr material_key)].

(** The end of the loop body (source lines 252-260): the flat-colour
    material when no material was assigned, then the object itself. *)
Definition finish_geom (geom : lcmt_viewer_geometry_data)
    (material_key : string) (material_key_assigned : bool)
    (do_load_geom : M bool) : M unit :=
  (if negb material_key_assigned then
     send_remote_call "register_material"
       [("name", PStr material_key);
        ("material_type", PStr "color");
        ("color", floats (take 4 (color geom)))]
   else mret material_key_assigned);;
  do_load_geom;;
  mret tt.

(** [RigidTransform(RotationMatrix(Quaternion(q)), p).GetAsMatrix4()]
    (source lines 167-169): the constructors raise on what they reject. *)
Definition RigidTransform_GetAsMatrix4 (q p : list float) : M Mat4 :=
  match rejects q p with
  | Some e => raise e
  | None => mret (GetAsMatrix4 q p)
  end.

(** The body of the loop over [link.geom] (source lines 158-260); [tfs] is
    the list being built for the link, returned as it stands after this
    geometry. *)
Definition load_geom (source_name frame_name : string) (robot : Z)
    (j : nat) (geom : lcmt_viewer_geometry_data) (tfs : list Mat4)
    : M (list Mat4) :=
  alpha ← py_index (color geom) 3;
  if (alpha =? 0)%float then mret tfs
  else
    let geom_name := _format_geom_name source_name frame_name robot j in
    tf ← RigidTransform_GetAsMatrix4 (quaternion geom) (position geom);
    let tfs := (tfs ++ [tf])%list in
    let material_key := "material_" +:+ geom_name in
    s ← get_self;
    material_key_assigned ←
      check_overrides material_key geom_name (material_overrides s) false;
    if (type geom =? BOX)%Z then
      assert_ (num_float_data geom =? 3)%nat;;
      finish_geom geom material_key material_key_assigned
        (do_load_geom_box geom geom_name material_key);;
      mret tfs
    else if (type geom =? SPHERE)%Z then
      assert_ (num_float_data geom =? 1)%nat;;
      finish_geom geom material_key material_key_assigned
        (do_load_geom_sphere geom geom_name material_key);;
      mret tfs
    else if (type geom =? CYLINDER)%Z then
      assert_ (num_float_data geom =? 2)%nat;;
      finish_geom geom material_key material_key_assigned
        (do_load_geom_cylinder geom geom_name material_key);;
      mret tfs
    else if (type geom =? MESH)%Z then
      let candidate_texture_path_png :=
        str_drop_last3 (string_data geom) +:+ "png" in
      material_key_assigned ←
        (if negb material_key_assigned
            && path_exists candidate_texture_path_png then
           send_remote_call "register_material"
             [("name", PStr material_key);
              ("material_type", PStr "color_texture");
              ("path", PStr candidate_texture_path_png)]
         else mret material_key_assigned);
      finish_geom geom material_key material_key_assigned
        (do_load_geom_mesh geom geom_name material_key);;
      mret tfs
    else mret tfs.

(** The body of the loop over the links (source lines 152-262). *)
Definition load_link (link : lcmt_viewer_link_data) : M unit :=
  '(source_name, frame_name) ← lift (_parse_name (name link));
  s ← get_self;
  nums ← get_attr (num_link_geometries_by_link_name s);
  set_num_link_geometries_by_link_name (<[name link := num_geom link]> nums);;
  tfs ← fold_enum (load_geom source_name frame_name (robot_num link))
         0 (geom link) [];
  s ← get_self;
  tfss ← get_attr (link_subgeometry_local_tfs_by_link_name s);
  set_link_subgeometry_local_tfs_by_link_name (<[name link := tfs]> tfss).

(** The body of the loop over the cameras (source lines 264-277). *)
Definition load_camera (i : nat) (camera_tf : Mat4) : M unit :=
  s ← get_self;
  let camera_tf_post := dot (global_transform s) camera_tf in
  send_remote_call "register_camera"
    [("name", PStr ("cam_" +:+ str_of_int (Z.of_nat i)));
     ("location", floats (translation camera_tf_post));
     ("quaternion", floats (quaternion_wxyz camera_tf_post));
     ("angle", PInt 90)];;
  send_remote_call "configure_rendering"
    [("camera_name", PStr ("cam_" +:+ str_of_int (Z.of_nat i)));
     ("resolution", PList [PInt 1280; PInt 720]);
     ("file_format", PStr "JPEG")];;
  mret tt.

Definition env_map_path : string :=
  "/home/gizatt/tools/blender_server/data/env_maps/shanghai_bund_4k.hdr".

(** [load], given the load message that the scene graph dispatches. *)
Definition load (load_robot_msg : lcmt_viewer_load_robot) : M unit :=
  send_remote_call "initialize_scene" [];;
  set_num_link_geometries_by_link_name ∅;;
  set_link_subgeometry_local_tfs_by_link_name ∅;;
  for_enum (λ _ link, load_link link) 0 load_robot_msg;;
  s ← get_self;
  for_enum load_camera 0 (camera_tfs s);;
  send_remote_call "set_environment_map" [("path", PStr env_map_path)];;
  mret tt.

(** *** [_DoPublish] *)

(** The body of the loop over [j] (source lines 297-309). *)
Definition publish_geom (link_name source_name frame_name : string)
    (model_id : Z) (pose_matrix : Mat4) (j : nat) : M unit :=
  s ← get_self;
  tfss ← get_attr (link_subgeometry_local_tfs_by_link_name s);
  tfs ← dict_get tfss link_name;
  tf ← py_index tfs j;
  let offset := dot (global_transform s) (dot pose_matrix tf) in
  let location := translation offset in
  let quaternion := quaternion_wxyz offset in
  let geom_name := _format_geom_name source_name frame_name model_id j in
  send_remote_call "update_parameters"
    [("name", PStr ("obj_" +:+ geom_name));
     ("location", floats location);
     ("rotation_mode", PStr "QUATERNION");
     ("rotation_quaternion", floats quaternion)];;
  mret tt.

(** The body of the loop over the poses (source lines 292-309). *)
Definition publish_frame (entry : pose_entry) : M unit :=
  let link_name := get_name entry in
  '(source_name, frame_name) ← lift (_parse_name link_name);
  let model_id := get_model_instance_id entry in
  let pose_matrix := get_pose entry in
  s ← get_self;
  nums ← get_attr (num_link_geometries_by_link_name s);
  n ← dict_get nums link_name;
  for_range n
    (publish_geom link_name source_name frame_name model_id pose_matrix).

(** One rendered image per camera (source lines 312-317); the request is
    recorded in the trace like the other calls to the server. *)
Definition render_image (i : nat) : M unit :=
  s ← get_self;
  send_remote_call "render_image"
    [("camera_name", PStr ("cam_" +:+ str_of_int (Z.of_nat i)));
     ("filepath",
      PStr ("/tmp/drake_blender_vis_scene_render_" +:+ zfill 2 i +:+ "_"
            +:+ zfill 8 (current_publish_num s) +:+ ".jpg"))];;
  mret tt.

(** [_DoPublish], given the pose bundle read from the input port. *)
Definition _DoPublish (pose_bundle : list pose_entry) : M unit :=
  for_enum (λ _ entry, publish_frame entry) 0 pose_bundle;;
  s ← get_self;
  for_range (length (camera_tfs s)) render_image;;
  s ← get_self;
  (if (current_publish_num s =? 0)%nat then
     send_remote_call "save_current_scene"
       [("path", PStr "/tmp/drake_blender_vis_scene.blend")];;
     set_published_scene true
   else mret tt);;
  s ← get_self;
  set_current_publish_num (current_publish_num s + 1).

(** *** A session *)

(** The ticks of a session: the publish events, in order; an exception
    ends the session. *)
Fixpoint publish_all (bundles : list (list pose_entry)) : M unit :=
  match bundles with
  | [] => mret tt
  | pose_bundle :: rest => _DoPublish pose_bundle;; publish_all rest
  end.

(** The initialization event followed by the publish events. *)
Definition session (load_robot_msg : lcmt_viewer_load_robot)
    (bundles : list (list pose_entry)) : M unit :=
  load load_robot_msg;; publish_all bundles.

End Methods.

(** The object as [__init__] leaves it. *)
Definition init `{PoseLib} (camera_tfs : list Mat4)
    (material_overrides : list override) (global_transform : Mat4)
    : BlenderColorCamera :=
  mkSelf 0 material_overrides global_transform camera_tfs None None false.

(** The parts of what a method body yields. *)
Definition outcome `{PoseLib} {A}
    (x : result A * BlenderColorCamera * list RemoteCall) : result A :=
  x.1.1.
Definition after `{PoseLib} {A}
    (x : result A * BlenderColorCamera * list RemoteCall)
    : BlenderColorCamera :=
  x.1.2.
Definition calls `{PoseLib} {A}
    (x : result A * BlenderColorCamera * list RemoteCall)
    : list RemoteCall :=
  x.2.

(** ** A reference instance of the libraries

    Matrices as lists of rows of binary64 floats, with the textbook
    formulas: the rotation matrix of a quaternion [w, x, y, z] scaled by
    [2 / |q|^2], the check that the quaternion is normalised, the
    row-by-column product, the last column as translation,
    and the quaternion of a rotation matrix by the usual case split on the
    trace.  It serves to run the methods on concrete scenes, whose
    rotations are all the identity, where these formulas are exact; on
    other rotations the last bits may differ from those of the library,
    and nothing below depends on them. *)
Module FloatLib.

Definition at_ (l : list float) (i : nat) : float := nth i l 0%float.
Definition entry (m : list (list float)) (i j : nat) : float :=
  at_ (nth i m []) j.

(** [Quaternion(q)] takes four numbers and raises [RuntimeError] unless
    their norm is 1 up to [1e-5]; [RigidTransform(R, p)] takes three
    numbers as position; a list of another length fits no constructor
    ([TypeError]). *)
Definition rejects (q p : list float) : option exn :=
  let w := at_ q 0 in let x := at_ q 1 in
  let y := at_ q 2 in let z := at_ q 3 in
  let norm := PrimFloat.sqrt (w * w + x * x + y * y + z * z)%float in
  if negb (length q =? 4)%nat then Some TypeError
  else if (0x1.4f8b588e368f1p-17 <=? PrimFloat.abs (norm - 1))%float
       then Some RuntimeError
  else if negb (length p =? 3)%nat then Some TypeError
  else None.

Definition GetAsMatrix4 (q p : list float) : list (list float) :=
  let w := at_ q 0 in let x := at_ q 1 in
  let y := at_ q 2 in let z := at_ q 3 in
  let s := (2 / (w * w + x * x + y * y + z * z))%float in
  let sx := (s * x)%float in let sy := (s * y)%float in
  let sz := (s * z)%float in
  [ [ (1 - sy * y - sz * z); (sx * y - sz * w); (sx * z + sy * w);
      at_ p 0 ];
    [ (sx * y + sz * w); (1 - sx * x - sz * z); (sy * z - sx * w);
      at_ p 1 ];
    [ (sx * z - sy * w); (sy * z + sx * w); (1 - sx * x - sy * y);
      at_ p 2 ];
    [ 0; 0; 0; 1 ] ]%float.

Definition dot (a b : list (list float)) : list (list float) :=
  map (λ i, map (λ j,
    (entry a i 0 * entry b 0 j + entry a i 1 * entry b 1 j
     + entry a i 2 * entry b 2 j + entry a i 3 * entry b 3 j)%float)
    (seq 0 4)) (seq 0 4).

Definition translation (m : list (list float)) : list float :=
  [entry m 0 3; entry m 1 3; entry m 2 3].

Definition quaternion_wxyz (m : list (list float)) : list float :=
  let t := (entry m 0 0 + entry m 1 1 + entry m 2 2)%float in
  if (0 <? t)%float then
    let r := PrimFloat.sqrt (t + 1) in
    let f := (0.5 / r)%float in
    [ (0.5 * r); ((entry m 2 1 - entry m 1 2) * f);
      ((entry m 0 2 - entry m 2 0) * f);
      ((entry m 1 0 - entry m 0 1) * f) ]%float
  else
    let i := if (entry m 0 0 <? entry m 1 1)%float then 1 else 0 in
    let i := if (entry m i i <? entry m 2 2)%float then 2 else i in
    let j := (i + 1) mod 3 in
    let k := (j + 1) mod 3 in
    let r := PrimFloat.sqrt (entry m i i - entry m j j - entry m k k + 1) in
    let f := (0.5 / r)%float in
    let v := λ n,
      if (n =? i)%nat then (0.5 * r)%float
      else if (n =? j)%nat then ((entry m j i + entry m i j) * f)%float
      else ((entry m k i + entry m i k) * f)%float in
    [ ((entry m k j - entry m j k) * f)%float; v 0; v 1; v 2 ].

#[export] Instance lib : PoseLib :=
  Build_PoseLib (list (list float)) rejects GetAsMatrix4 dot translation
    quaternion_wxyz.

(** A server that acknowledges every call, and no texture file on disk. *)
#[export] Instance outside : Outside :=
  Build_Outside (λ _ _, true) (λ _, false).

Definition identity : list (list float) :=
  [ [1; 0; 0; 0]; [0; 1; 0; 0]; [0; 0; 1; 0]; [0; 0; 0; 1] ]%float.
Definition translate (x y z : float) : list (list float) :=
  [ [1; 0; 0; x]; [0; 1; 0; y]; [0; 0; 1; z]; [0; 0; 0; 1] ]%float.

(** A unit box at the local position [p], with the given alpha. *)
Definition box (p : list float) (alpha : float) : lcmt_viewer_geometry_data :=
  mkGeom BOX p [1; 0; 0; 0]%float [0.5; 0.5; 0.5; alpha]%float ""
    [1; 1; 1]%float.

End FloatLib.

(** ** Vocabulary of the properties *)

(** A string without the character [":"]. *)
Fixpoint no_colon (s : string) : Prop :=
  match s with
  | EmptyString => True
  | String c s' => c ≠ ":"%char ∧ no_colon s'
  end.

(** [src] is what [_parse_name] can return as a source name: the first
    ["::"] of [src ++ "::" ++ r] is the one written after [src]. *)
Definition first_delim (src : string) : Prop :=
  ∀ r, str_index "::" (src +:+ "::" +:+ r) = Some (String.length src).

(** The string passed to a call under the keyword [k], if any. *)
Fixpoint str_kwarg (k : string) (kw : list (string * pyval))
    : option string :=
  match kw with
  | [] => None
  | (k', v) :: kw' =>
      if String.eqb k' k then
        match v with PStr x => Some x | _ => None end
      else str_kwarg k kw'
  end.

Definition is_call (f : string) (c : RemoteCall) : bool :=
  String.eqb (func c) f.

(** The [name] arguments of the calls to [f], in the order sent. *)
Definition names_of (f : string) (l : list RemoteCall) : list string :=
  omap (λ c, if is_call f c then str_kwarg "name" (kwargs c) else None) l.

(** A geometry that [load] does not skip as invisible, and one whose type
    it supports. *)
Definition visible (geom : lcmt_viewer_geometry_data) : bool :=
  match color geom !! 3 with
  | Some alpha => negb (alpha =? 0)%float
  | None => false
  end.
Definition supported (geom : lcmt_viewer_geometry_data) : bool :=
  ((type geom =? BOX) || (type geom =? SPHERE) || (type geom =? CYLINDER)
   || (type geom =? MESH))%Z.

(** The transform cached for a geometry. *)
Definition local_tf `{PoseLib} (geom : lcmt_viewer_geometry_data) : Mat4 :=
  GetAsMatrix4 (quaternion geom) (position geom).

(** The rules that match a name, and the calls they cause. *)
Definition matching (geom_name : string) (overrides : list override)
    : list override :=
  filter (λ o, re_match o geom_name = true) overrides.
Definition override_call (material_key : string) (o : override)
    : RemoteCall :=
  mkCall "register_material" (("name", PStr material_key) :: material_args o).

(** A rule whose arguments can be passed along with [name], and the rules
    of a list up to the first that cannot. *)
Definition passable (o : override) : bool :=
  negb (has_key "name" (material_args o)).
Fixpoint passed (overrides : list override) : list override :=
  match overrides with
  | [] => []
  | o :: overrides' => if passable o then o :: passed overrides' else []
  end.

(** A geometry whose quaternion and position the transform library
    accepts. *)
Definition accepted `{PoseLib} (geom : lcmt_viewer_geometry_data) : bool :=
  match rejects (quaternion geom) (position geom) with
  | None => true
  | Some _ => false
  end.

(** The calls one pass of the geometry loop of [load] may send for the
    material [key]: registrations of that material, then at most one
    object, which uses that material and comes after at least one
    registration ([seen] tells whether one came before [n]). *)
Fixpoint geom_calls_ok (key : string) (seen : bool) (n : list RemoteCall)
    : Prop :=
  match n with
  | [] => True
  | c :: n' =>
      if is_call "register_material" c then
        str_kwarg "name" (kwargs c) = Some key ∧ geom_calls_ok key true n'
      else
        is_call "register_object" c = true
        ∧ str_kwarg "material" (kwargs c) = Some key
        ∧ seen = true ∧ n' = []
  end.

(** Every object registered in [n] refers to a material that an earlier
    call of [n] has registered. *)
Definition materials_precede_objects (n : list RemoteCall) : Prop :=
  ∀ i c, n !! i = Some c → is_call "register_object" c = true →
    ∃ key i' c', str_kwarg "material" (kwargs c) = Some key ∧ i' < i
      ∧ n !! i' = Some c' ∧ is_call "register_material" c' = true
      ∧ str_kwarg "name" (kwargs c') = Some key.

(** A registration of a material or of an object. *)
Definition is_registration (c : RemoteCall) : bool :=
  is_call "register_material" c || is_call "register_object" c.

(** Every registration in [n] comes before every pose update in [n]. *)
Definition registrations_precede_updates (n : list RemoteCall) : Prop :=
  ∀ i i' c c', n !! i = Some c → n !! i' = Some c' →
    is_registration c = true → is_call "update_parameters" c' = true →
    i < i'.

(** Every call of [n] is to one of the functions [fs]. *)
Definition all_funcs (fs : list string) (n : list RemoteCall) : Prop :=
  Forall (λ c, func c ∈ fs) n.

(** Whatever a method body sends satisfies [P]. *)
Definition emits `{PoseLib} {A} (P : list RemoteCall → Prop) (m : M A)
    : Prop :=
  ∀ s h r s' n, m s h = (r, s', n) → P n.

(** A property of traces that holds of the empty trace and of the
    concatenation of two traces that have it. *)
Class Sequential (P : list RemoteCall → Prop) : Prop := {
  seq_nil : P [];
  seq_app : ∀ n1 n2, P n1 → P n2 → P (n1 ++ n2)
}.

(** The object names that the geometries of one link are registered
    under, when the loop starts counting at [j]: the counter advances over
    every record, visible or not. *)
Fixpoint object_names_from (src frm : string) (robot : Z) (j : nat)
    (geoms : list lcmt_viewer_geometry_data) : list string :=
  match geoms with
  | [] => []
  | geom :: geoms' =>
      (if visible geom && supported geom
       then ["obj_" +:+ _format_geom_name src frm robot j] else [])
      ++ object_names_from src frm robot (S j) geoms'
  end.

Definition link_object_names (link : lcmt_viewer_link_data) : list string :=
  match _parse_name (name link) with
  | Ok (src, frm) => object_names_from src frm (robot_num link) 0 (geom link)
  | Raise _ => []
  end.

Definition load_object_names (msg : lcmt_viewer_load_robot) : list string :=
  flat_map link_object_names msg.

(** The functions [load] calls, and those [_DoPublish] calls. *)
Definition load_funcs : list string :=
  ["initialize_scene"; "register_material"; "register_object";
   "register_camera"; "configure_rendering"; "set_environment_map"].
Definition publish_funcs : list string :=
  ["update_parameters"; "render_image"; "save_current_scene"].

(** A method body leaves the attribute (or other reading) [f] of the
    object as it found it. *)
Definition keeps `{PoseLib} {A X} (f : BlenderColorCamera → X) (m : M A)
    : Prop :=
  ∀ s h r s' n, m s h = (r, s', n) → f s' = f s.

(** The number of [save_current_scene] calls in a trace. *)
Definition saves (n : list RemoteCall) : nat :=
  length (filter (λ c, is_call "save_current_scene" c = true) n).

(** Following the specification's words: the index of a derived name
    counts only the visible geometries, a zero-alpha record leaving no gap
    ([k] is the number of visible geometries seen so far). *)
Fixpoint object_names_ranked (src frm : string) (robot : Z) (k : nat)
    (geoms : list lcmt_viewer_geometry_data) : list string :=
  match geoms with
  | [] => []
  | geom :: geoms' =>
      if visible geom then
        (if supported geom
         then ["obj_" +:+ _format_geom_name src frm robot k] else [])
        ++ object_names_ranked src frm robot (S k) geoms'
      else object_names_ranked src frm robot k geoms'
  end.

Definition load_object_names_ranked (msg : lcmt_viewer_load_robot)
    : list string :=
  flat_map (λ link,
    match _parse_name (name link) with
    | Ok (src, frm) =>
        object_names_ranked src frm (robot_num link) 0 (geom link)
    | Raise _ => []
    end) msg.

(** The call that [_DoPublish] sends for the geometry of index [j] whose
    cached transform is [tf], and the calls for a list of cached
    transforms, indexed from [j] on. *)
Definition update_call `{PoseLib} (src frm : string) (model_id : Z)
    (G P : Mat4) (j : nat) (tf : Mat4) : RemoteCall :=
  mkCall "update_parameters"
    [("name", PStr ("obj_" +:+ _format_geom_name src frm model_id j));
     ("location", floats (translation (dot G (dot P tf))));
     ("rotation_mode", PStr "QUATERNION");
     ("rotation_quaternion", floats (quaternion_wxyz (dot G (dot P tf))))].

Fixpoint update_calls `{PoseLib} (src frm : string) (model_id : Z)
    (G P : Mat4) (j : nat) (tfs : list Mat4) : list RemoteCall :=
  match tfs with
  | [] => []
  | tf :: tfs' =>
      update_call src frm model_id G P j tf
      :: update_calls src frm model_id G P (S j) tfs'
  end.

(** *** The calls of a whole [load] and of a whole publish *)

(** Whether a method body has returned. *)
Definition is_ok {A} (r : result A) : bool :=
  match r with Ok _ => true | Raise _ => false end.

(** The file that the image of camera [i] is written to at publish number
    [n], the request for that image, and the requests of one publish with
    [k] cameras. *)
Definition render_path (i n : nat) : string :=
  "/tmp/drake_blender_vis_scene_render_" +:+ zfill 2 i +:+ "_"
    +:+ zfill 8 n +:+ ".jpg".
Definition render_call (i n : nat) : RemoteCall :=
  mkCall "render_image"
    [("camera_name", PStr ("cam_" +:+ str_of_int (Z.of_nat i)));
     ("filepath", PStr (render_path i n))].
Definition render_calls (k n : nat) : list RemoteCall :=
  map (λ i, render_call i n) (seq 0 k).

Definition save_call : RemoteCall :=
  mkCall "save_current_scene"
    [("path", PStr "/tmp/drake_blender_vis_scene.blend")].

(** The object after a publish that has returned. *)
Definition published `{PoseLib} (s : BlenderColorCamera)
    : BlenderColorCamera :=
  mkSelf (current_publish_num s + 1) (material_overrides s)
    (global_transform s) (camera_tfs s)
    (num_link_geometries_by_link_name s)
    (link_subgeometry_local_tfs_by_link_name s)
    (if (current_publish_num s =? 0)%nat then true else published_scene s).

(** Two objects with the same global transform and the same tables. *)
Definition same_scene `{PoseLib} (s s' : BlenderColorCamera) : Prop :=
  global_transform s = global_transform s'
  ∧ num_link_geometries_by_link_name s = num_link_geometries_by_link_name s'
  ∧ link_subgeometry_local_tfs_by_link_name s
    = link_subgeometry_local_tfs_by_link_name s'.

(** The two calls [load] sends for the camera of index [i], and the calls
    for a list of cameras, indexed from [i] on. *)
Definition camera_calls `{PoseLib} (G : Mat4) (i : nat) (camera_tf : Mat4)
    : list RemoteCall :=
  [mkCall "register_camera"
     [("name", PStr ("cam_" +:+ str_of_int (Z.of_nat i)));
      ("location", floats (translation (dot G camera_tf)));
      ("quaternion", floats (quaternion_wxyz (dot G camera_tf)));
      ("angle", PInt 90)];
   mkCall "configure_rendering"
     [("camera_name", PStr ("cam_" +:+ str_of_int (Z.of_nat i)));
      ("resolution", PList [PInt 1280; PInt 720]);
      ("file_format", PStr "JPEG")]].
Fixpoint cameras_calls `{PoseLib} (G : Mat4) (i : nat) (cams : list Mat4)
    : list RemoteCall :=
  match cams with
  | [] => []
  | camera_tf :: cams' =>
      camera_calls G i camera_tf ++ cameras_calls G (S i) cams'
  end.

(** The two tables that [load] builds: each link, in the order of the
    message, sets the entry of its name. *)
Definition num_table (msg : lcmt_viewer_load_robot) : gmap string nat :=
  foldl (λ d link, <[name link := num_geom link]> d) ∅ msg.
Definition tfs_table `{PoseLib} (msg : lcmt_viewer_load_robot)
    : gmap string (list Mat4) :=
  foldl (λ d link,
           <[name link :=
               map local_tf (filter (λ g, visible g = true) (geom link))]> d)
    ∅ msg.

(** The object after a [load] that has returned. *)
Definition loaded `{PoseLib} (msg : lcmt_viewer_load_robot)
    (s : BlenderColorCamera) : BlenderColorCamera :=
  mkSelf (current_publish_num s) (material_overrides s)
    (global_transform s) (camera_tfs s)
    (Some (num_table msg)) (Some (tfs_table msg)) (published_scene s).

(** The calls for a mesh: its texture material, its flat-colour material
    and the object. *)
Definition texture_call (material_key path : string) : RemoteCall :=
  mkCall "register_material"
    [("name", PStr material_key);
     ("material_type", PStr "color_texture");
     ("path", PStr path)].
Definition colour_call (material_key : string)
    (geom : lcmt_viewer_geometry_data) : RemoteCall :=
  mkCall "register_material"
    [("name", PStr material_key);
     ("material_type", PStr "color");
     ("color", floats (take 4 (color geom)))].
Definition mesh_call (geom : lcmt_viewer_geometry_data)
    (geom_name material_key : string) : RemoteCall :=
  mkCall "register_object"
    [("name", PStr ("obj_" +:+ geom_name));
     ("type", PStr "obj");
     ("path", PStr (str_drop_last3 (string_data geom) +:+ "obj"));
     ("scale", floats (take 3 (float_data geom)));
     ("location", floats (position geom));
     ("quaternion", floats (quaternion geom));
     ("material", PStr material_key)].

(** The number of float data that [load] asserts for a geometry of a
    type it checks (source lines 188, 200, 211). *)
Definition float_count_ok (geom : lcmt_viewer_geometry_data) : bool :=
  if (type geom =? BOX)%Z then (num_float_data geom =? 3)%nat
  else if (type geom =? SPHERE)%Z then (num_float_data geom =? 1)%nat
  else if (type geom =? CYLINDER)%Z then (num_float_data geom =? 2)%nat
  else true.

(** A geometry record, to be named [geom_name], on which the loop body of
    [load] returns: its colour has an alpha component and, if that is not
    zero, the transform library accepts it, the arguments of the rules
    that match its name can be passed along with [name], and it passes
    the assertion on its float data.  The records of a link, counted from
    [j] on, and a link whose name has the delimiter and whose records are
    all such. *)
Definition record_ok `{PoseLib} (overrides : list override)
    (geom_name : string) (geom : lcmt_viewer_geometry_data) : bool :=
  match color geom !! 3 with
  | Some alpha =>
      (alpha =? 0)%float
      || accepted geom
         && forallb passable (matching geom_name overrides)
         && float_count_ok geom
  | None => false
  end.
Fixpoint records_ok `{PoseLib} (overrides : list override)
    (src frm : string) (robot : Z) (j : nat)
    (geoms : list lcmt_viewer_geometry_data) : bool :=
  match geoms with
  | [] => true
  | geom :: geoms' =>
      record_ok overrides (_format_geom_name src frm robot j) geom
      && records_ok overrides src frm robot (S j) geoms'
  end.
Definition link_ok `{PoseLib} (overrides : list override)
    (link : lcmt_viewer_link_data) : bool :=
  match _parse_name (name link) with
  | Ok (src, frm) =>
      records_ok overrides src frm (robot_num link) 0 (geom link)
  | Raise _ => false
  end.

(** ** Scenes to run the methods on *)
Module Scenes.
Import FloatLib.

(** The object built with one camera at the origin, no override rule and
    the identity as global transform. *)
Definition camera0 : BlenderColorCamera := init [identity] [] identity.

(** The same object once [load] has run on an empty message. *)
Definition camera0_loaded : BlenderColorCamera := after (load [] camera0 []).

(** One link with a collision-only box followed by a visible box. *)
Definition hidden_then_box : lcmt_viewer_load_robot :=
  [mkLink "s::f" 0 [box [0; 0; 0]%float 0; box [1; 0; 0]%float 1]].

(** One link with a collision-only box followed by two visible boxes at
    different places. *)
Definition hidden_then_two_boxes : lcmt_viewer_load_robot :=
  [mkLink "s::f" 0
     [box [0; 0; 0]%float 0; box [1; 0; 0]%float 1; box [2; 0; 0]%float 1]].

(** One link with one visible box. *)
Definition one_box : lcmt_viewer_load_robot :=
  [mkLink "s::f" 0 [box [0; 0; 0]%float 1]].

(** Two model instances with a body of the same name: the body of the
    first instance has a collision-only box as its only geometry, that of
    the second a visible box. *)
Definition same_name_bodies : lcmt_viewer_load_robot :=
  [mkLink "plant::base" 0 [box [0; 0; 0]%float 0];
   mkLink "plant::base" 1 [box [0; 0; 0]%float 1]].

(** The same link sent twice. *)
Definition twins : lcmt_viewer_load_robot :=
  [mkLink "s::f" 0 [box [0; 0; 0]%float 1];
   mkLink "s::f" 0 [box [0; 0; 0]%float 1]].

(** The rules [(".*box.*", M1)] and [(".*", M2)]. *)
Definition contains (sub s : string) : bool :=
  if str_index sub s is Some _ then true else false.
Definition M1 : list (string * pyval) :=
  [("material_type", PStr "CC0_texture"); ("path", PStr "M1")].
Definition M2 : list (string * pyval) :=
  [("material_type", PStr "CC0_texture"); ("path", PStr "M2")].
Definition rule_box : override := mkOverride ".*box.*" (contains "box") M1.
Definition rule_any : override := mkOverride ".*" (λ _, true) M2.
Definition camera_with_rules : BlenderColorCamera :=
  init [identity] [rule_box; rule_any] identity.
Definition foo_box : lcmt_viewer_load_robot :=
  [mkLink "s::foo_box_1" 0 [box [0; 0; 0]%float 1]].

(** A mesh without override and a capsule (type 5, not supported). *)
Definition mesh : lcmt_viewer_geometry_data :=
  mkGeom MESH [0; 0; 0]%float [1; 0; 0; 0]%float [0.5; 0.5; 0.5; 1]%float
    "models/cup.obj" [1; 1; 1]%float.
Definition capsule : lcmt_viewer_geometry_data :=
  mkGeom 5 [0; 0; 0]%float [1; 0; 0; 0]%float [0.5; 0.5; 0.5; 1]%float
    "" [1; 2]%float.

(** A pose-bundle entry. *)
Definition pose (link_name : string) (model_id : Z) (x : list (list float))
    : @pose_entry lib :=
  mkPose link_name model_id x.

(** The calls to [update_parameters] in a trace. *)
Definition updates (n : list RemoteCall) : list RemoteCall :=
  filter (λ c, is_call "update_parameters" c = true) n.

End Scenes.

(** More scenes: a server whose replies are all falsy next to a disk that
    has every texture file, a box with two float data, and a link whose
    name lacks the delimiter. *)
Module MoreScenes.
Import FloatLib.

Definition with_textures : Outside :=
  Build_Outside (λ _ _, false) (λ _, true).

Definition flat_box : lcmt_viewer_geometry_data :=
  mkGeom BOX [0; 0; 0]%float [1; 0; 0; 0]%float [0.5; 0.5; 0.5; 1]%float ""
    [1; 1]%float.

Definition nameless : lcmt_viewer_load_robot :=
  [mkLink "world" 0 [box [0; 0; 0]%float 1]].

(** Two model instances with a body of the same name, each with a visible
    box. *)
Definition two_instances : lcmt_viewer_load_robot :=
  [mkLink "plant::base" 0 [box [0; 0; 0]%float 1];
   mkLink "plant::base" 1 [box [1; 0; 0]%float 1]].

(** A box whose quaternion is zero, and a rule that carries [name]. *)
Definition zero_quat_box : lcmt_viewer_geometry_data :=
  mkGeom BOX [0; 0; 0]%float [0; 0; 0; 0]%float [0.5; 0.5; 0.5; 1]%float ""
    [1; 1; 1]%float.
Definition rule_named : override :=
  mkOverride ".*" (λ _, true)
    [("name", PStr "gold"); ("material_type", PStr "color")].

End MoreScenes.

(** * Properties *)

(** ** Strings and names *)

#[local] Arguments String.append !s1 s2 / : simpl nomatch.

Lemma str_app_assoc (a b c : string) : (a +:+ b) +:+ c = a +:+ (b +:+ c).
Proof. induction a as [|x a IH]; simpl; [done | by rewrite IH]. Qed.

Lemma str_app_length (a b : string) :
  String.length (a +:+ b) = String.length a + String.length b.
Proof. induction a as [|x a IH]; simpl; [done | by rewrite IH]. Qed.

Lemma str_app_inj_length (a a' b b' : string) :
  String.length a = String.length a' →
  a +:+ b = a' +:+ b' → a = a' ∧ b = b'.
Proof.
  revert a'. induction a as [|x a IH]; intros [|x' a'] Hlen Heq;
    simpl in *; try discriminate.
  - done.
  - injection Heq as -> Heq. injection Hlen as Hlen.
    destruct (IH a' Hlen Heq) as [-> ->]. done.
Qed.

Lemma no_colon_app (a b : string) :
  no_colon a → no_colon b → no_colon (a +:+ b).
Proof. induction a as [|x a IH]; simpl; [done | intros [? ?] ?; auto]. Qed.

(** Two strings cut at their first colon. *)
Lemma split_first_colon (a a' r r' : string) :
  no_colon a → no_colon a' →
  a +:+ String ":" r = a' +:+ String ":" r' → a = a' ∧ r = r'.
Proof.
  revert a'. induction a as [|x a IH]; intros [|x' a'] Ha Ha' Heq;
    simpl in *.
  - by injection Heq as ->.
  - injection Heq as <- _. by destruct Ha' as [[] _].
  - injection Heq as -> _. by destruct Ha as [[] _].
  - injection Heq as -> Heq. destruct Ha as [_ Ha], Ha' as [_ Ha'].
    destruct (IH a' Ha Ha' Heq) as [-> ->]. done.
Qed.

(** Two strings cut at their last colon. *)
Lemma split_last_colon (x x' b b' : string) :
  no_colon b → no_colon b' →
  x +:+ String ":" b = x' +:+ String ":" b' → x = x' ∧ b = b'.
Proof.
  intros Hb Hb'. revert x'.
  induction x as [|c x IH]; intros [|c' x'] Heq; simpl in *.
  - by injection Heq as ->.
  - injection Heq as <- Heq. subst b. exfalso.
    clear -Hb. induction x' as [|d x' IH]; simpl in Hb.
    + by destruct Hb as [[] _].
    + apply IH, Hb.
  - injection Heq as -> Heq. subst b'. exfalso.
    clear -Hb'. induction x as [|d x IH]; simpl in Hb'.
    + by destruct Hb' as [[] _].
    + apply IH, Hb'.
  - injection Heq as -> Heq. destruct (IH x' Heq) as [-> ->]. done.
Qed.

Lemma no_colon_string_of_uint (d : Decimal.uint) :
  no_colon (NilEmpty.string_of_uint d).
Proof. induction d; simpl; try done; split; done. Qed.

Lemma no_colon_str_of_int (z : Z) : no_colon (str_of_int z).
Proof.
  unfold str_of_int.
  assert (∀ d, no_colon (NilZero.string_of_uint d)) as Hu.
  { intros [| | | | | | | | | |]; try apply no_colon_string_of_uint.
    simpl; done. }
  destruct (Z.to_int z); simpl; [apply Hu | split; [done | apply Hu]].
Qed.

Lemma str_of_int_inj (a b : Z) : str_of_int a = str_of_int b → a = b.
Proof.
  unfold str_of_int. intros Heq.
  assert (∀ z, NilZero.int_of_string (NilZero.string_of_int (Z.to_int z))
               = Some (Z.to_int z)) as Hrt.
  { intros z. apply NilZero.isi; destruct z; simpl; try done;
      intros [= H]; by apply DecimalPos.Unsigned.to_uint_nonnil in H. }
  pose proof (Hrt a) as Ha. rewrite Heq, Hrt in Ha.
  injection Ha as Ha. rewrite <- (DecimalZ.of_to a), <- (DecimalZ.of_to b).
  by rewrite Ha.
Qed.

Lemma str_index_cons (d : string) (c : ascii) (s : string) :
  str_index d (String c s)
  = if String.prefix d (String c s) then Some 0
    else option_map S (str_index d s).
Proof. reflexivity. Qed.

Lemma prefix_delim_one (c : ascii) : String.prefix "::" (String c "") = false.
Proof. unfold String.prefix. by destruct (ascii_dec ":" c). Qed.

Lemma prefix_delim_two (c c' : ascii) (s : string) :
  String.prefix "::" (String c (String c' s))
  = if ascii_dec ":" c then if ascii_dec ":" c' then true else false
    else false.
Proof. by destruct s. Qed.

Lemma prefix_delim_cons (c : ascii) (src r r' : string) :
  String.prefix "::" (String c (src +:+ "::" +:+ r))
  = String.prefix "::" (String c (src +:+ "::" +:+ r')).
Proof.
  destruct src as [|c' src].
  - change ("" +:+ "::" +:+ r) with (String ":" (String ":" r)).
    change ("" +:+ "::" +:+ r') with (String ":" (String ":" r')).
    by rewrite !prefix_delim_two.
  - change (String c' src +:+ "::" +:+ r)
      with (String c' (src +:+ "::" +:+ r)).
    change (String c' src +:+ "::" +:+ r')
      with (String c' (src +:+ "::" +:+ r')).
    by rewrite !prefix_delim_two.
Qed.

Lemma first_delim_nil : first_delim "".
Proof. intros r. by destruct r. Qed.

Lemma first_delim_cons (c : ascii) (src r : string) :
  String.prefix "::" (String c (src +:+ "::" +:+ r)) = false →
  first_delim src → first_delim (String c src).
Proof.
  intros Hp Hsrc r'.
  change (String c src +:+ "::" +:+ r') with (String c (src +:+ "::" +:+ r')).
  rewrite str_index_cons.
  rewrite (prefix_delim_cons c src r' r), Hp, (Hsrc r'). done.
Qed.

(** Where [str_index] finds the delimiter. *)
Lemma str_index_delim (n : string) (p : nat) :
  str_index "::" n = Some p →
  ∃ src r, n = src +:+ "::" +:+ r ∧ String.length src = p ∧ first_delim src.
Proof.
  revert p. induction n as [|c n IH]; intros p; [done|].
  rewrite str_index_cons.
  destruct (String.prefix "::" (String c n)) eqn:Hp.
  - intros [= <-]. exists "", (str_drop 2 (String c n)).
    split; [|split; [done | apply first_delim_nil]].
    destruct n as [|c' n]; [by rewrite prefix_delim_one in Hp|].
    rewrite prefix_delim_two in Hp.
    destruct (ascii_dec _ c) as [<-|]; [|done].
    destruct (ascii_dec _ c') as [<-|]; [|done].
    unfold str_drop. simpl. rewrite Nat.sub_0_r.
    clear. f_equal. f_equal. induction n as [|c n IH]; simpl; [done|].
    by rewrite <- IH.
  - destruct (str_index "::" n) as [p'|] eqn:Hi; [|done].
    intros [= <-]. destruct (IH p' eq_refl) as (src & r & -> & <- & Hsrc).
    exists (String c src), r. split; [done|]. split; [done|].
    by apply (first_delim_cons c src r).
Qed.

Lemma str_take_app (a b : string) : str_take (String.length a) (a +:+ b) = a.
Proof.
  unfold str_take. induction a as [|c a IH]; simpl.
  - by destruct b.
  - by rewrite IH.
Qed.

Lemma str_drop_app (a b : string) : str_drop (String.length a) (a +:+ b) = b.
Proof.
  unfold str_drop. induction a as [|c a IH]; simpl.
  - rewrite Nat.sub_0_r. induction b as [|c b IH]; simpl; [done|].
    by rewrite IH.
  - apply IH.
Qed.

Lemma str_drop_delim (src r : string) :
  str_drop (String.length src + String.length "::") (src +:+ "::" +:+ r) = r.
Proof.
  rewrite <- (str_app_length src "::"), <- (str_app_assoc src "::" r).
  apply str_drop_app.
Qed.

(** What [_parse_name] returns: the name is the source name, the delimiter
    and the frame name, and the source name holds no earlier delimiter. *)
Lemma parse_name_ok (n src frm : string) :
  _parse_name n = Ok (src, frm) →
  n = src +:+ "::" +:+ frm ∧ first_delim src.
Proof.
  destruct (str_index "::" n) as [p|] eqn:Hi;
    [|by unfold _parse_name; rewrite Hi].
  destruct (str_index_delim n p Hi) as (src' & r & -> & <- & Hsrc).
  unfold _parse_name. rewrite Hi.
  rewrite str_take_app, str_drop_delim. by intros [= <- <-].
Qed.

(** Conversely a name with a delimiter always parses. *)
Lemma parse_name_first_delim (src frm : string) :
  first_delim src → _parse_name (src +:+ "::" +:+ frm) = Ok (src, frm).
Proof.
  intros Hsrc. unfold _parse_name.
  by rewrite (Hsrc frm), str_take_app, str_drop_delim.
Qed.

(** The derived name determines its four components, for source names
    that [_parse_name] can return. *)
Lemma format_geom_name_inj (s1 s2 f1 f2 : string) (m1 m2 : Z) (j1 j2 : nat) :
  first_delim s1 → first_delim s2 →
  _format_geom_name s1 f1 m1 j1 = _format_geom_name s2 f2 m2 j2 →
  s1 = s2 ∧ f1 = f2 ∧ m1 = m2 ∧ j1 = j2.
Proof.
  unfold _format_geom_name. intros H1 H2 Heq.
  assert (String.length s1 = String.length s2) as Hlen.
  { pose proof (H1 (str_of_int m1 +:+ "::" +:+ f1 +:+ "::"
                     +:+ str_of_int (Z.of_nat j1))) as E1.
    rewrite Heq, H2 in E1. by injection E1. }
  destruct (str_app_inj_length _ _ _ _ Hlen Heq) as [-> Heq'].
  simpl in Heq'. injection Heq' as Heq'.
  apply split_first_colon in Heq'; try apply no_colon_str_of_int.
  destruct Heq' as [Hm Heq']. apply str_of_int_inj in Hm as ->.
  injection Heq' as Heq'.
  change (f1 +:+ String ":" (String ":" (str_of_int (Z.of_nat j1))))
    with (f1 +:+ ":" +:+ String ":" (str_of_int (Z.of_nat j1))) in Heq'.
  change (f2 +:+ String ":" (String ":" (str_of_int (Z.of_nat j2))))
    with (f2 +:+ ":" +:+ String ":" (str_of_int (Z.of_nat j2))) in Heq'.
  rewrite <- (str_app_assoc f1 ":" (String ":" _)) in Heq'.
  rewrite <- (str_app_assoc f2 ":" (String ":" _)) in Heq'.
  apply split_last_colon in Heq'; try apply no_colon_str_of_int.
  destruct Heq' as [Hf Hj]. apply str_of_int_inj, Nat2Z.inj in Hj as ->.
  apply (str_app_inj_length f1 f2 ":" ":") in Hf as [-> _]; [done|].
  apply (f_equal String.length) in Hf. rewrite !str_app_length in Hf.
  simpl in Hf. lia.
Qed.

#[local] Arguments String.append : simpl never.

(** ** Running a method body *)

Section Running.
Context `{L : PoseLib} `{O : Outside}.

Lemma run_bind {A B} (m : M A) (k : A → M B) s h :
  (m ≫= k) s h
  = match m s h with
    | (Ok a, s', n) =>
        match k a s' (h ++ n) with (r, s'', n') => (r, s'', n ++ n') end
    | (Raise e, s', n) => (Raise e, s', n)
    end.
Proof. reflexivity. Qed.

Lemma run_ret {A} (a : A) s h : (mret a : M A) s h = (Ok a, s, []).
Proof. reflexivity. Qed.

(** A run is given by its outcome, the object it leaves and its calls. *)
Lemma run_as {A} (x : result A * BlenderColorCamera * list RemoteCall) r :
  outcome x = r → x = (r, after x, calls x).
Proof.
  destruct x as [[r0 s0] n0]. unfold outcome, after, calls. by intros <-.
Qed.

(** The override loop: it leaves the object alone and sends one
    registration for each matching rule, in declaration order, up to the
    first whose arguments cannot be passed, where it raises [TypeError];
    with no such rule it returns whether a rule matched (or the flag it
    was given). *)
Lemma check_overrides_run key geom_name ovs b s h :
  check_overrides key geom_name ovs b s h
  = (if forallb passable (matching geom_name ovs)
     then Ok (b || existsb (λ o, re_match o geom_name) ovs)
     else Raise TypeError, s,
     map (override_call key) (passed (matching geom_name ovs))).
Proof.
  revert b h. induction ovs as [|o ovs IH]; intros b h; simpl.
  - by rewrite orb_false_r.
  - unfold matching. rewrite filter_cons.
    destruct (re_match o geom_name) eqn:Hm; simpl.
    + rewrite run_bind. unfold register_material_with, passable.
      destruct (has_key "name" (material_args o)); [done|]. simpl.
      rewrite IH. unfold matching.
      destruct (forallb _ _); [by rewrite orb_true_r | done].
    + apply IH.
Qed.

Lemma passed_all ovs : forallb passable ovs = true → passed ovs = ovs.
Proof.
  induction ovs as [|o ovs IH]; [done|]. simpl.
  intros [-> Hall]%andb_true_iff. by rewrite IH.
Qed.

Lemma run_transform q p s h :
  RigidTransform_GetAsMatrix4 q p s h
  = match rejects q p with
    | Some e => (Raise e, s, [])
    | None => (Ok (GetAsMatrix4 q p), s, [])
    end.
Proof. unfold RigidTransform_GetAsMatrix4. by destruct (rejects q p). Qed.

(** A bind that has run either stopped in its first part or ran both. *)
Lemma bind_inv {A B} (m : M A) (k : A → M B) s h r s' n :
  (m ≫= k) s h = (r, s', n) →
  (∃ e, m s h = (Raise e, s', n) ∧ r = Raise e) ∨
  (∃ a s1 n1 n2, m s h = (Ok a, s1, n1) ∧ k a s1 (h ++ n1) = (r, s', n2)
                 ∧ n = n1 ++ n2).
Proof.
  rewrite run_bind. destruct (m s h) as [[[a|e] s1] n1].
  - destruct (k a s1 (h ++ n1)) as [[r2 s2] n2] eqn:Hk.
    intros [= <- <- <-]. right. by exists a, s1, n1, n2.
  - intros [= <- <- <-]. left. by exists e.
Qed.

End Running.

(** Inversion of a run [H : m s h = (r, s', n)] along the structure of
    [m]: binds are split, tests are decided, and the primitive steps are
    replaced by what they yield. *)
Ltac minv H :=
  cbv beta in H;
  lazymatch type of H with
  | (_ ≫= _) _ _ = _ =>
      let H1 := fresh "H" in
      let H2 := fresh "H" in
      apply bind_inv in H
        as [(? & H1 & ?) | (? & ? & ? & ? & H1 & H2 & ?)];
      [minv H1 | minv H1; try minv H2]
  | (if ?b then _ else _) _ _ = _ =>
      let E := fresh "E" in destruct b eqn:E; minv H
  | (match ?x with _ => _ end) _ _ = _ =>
      let E := fresh "E" in destruct x eqn:E; minv H
  | check_overrides _ _ _ _ _ _ = _ =>
      let E := fresh "E" in
      rewrite check_overrides_run in H;
      match type of H with
      | context [forallb passable ?l] =>
          destruct (forallb passable l) eqn:E;
          [rewrite (passed_all _ E) in H|]
      end;
      simplify_eq
  | RigidTransform_GetAsMatrix4 _ _ _ _ = _ =>
      let E := fresh "E" in
      rewrite run_transform in H;
      match type of H with
      | context [rejects ?q ?p] => destruct (rejects q p) eqn:E
      end;
      simplify_eq
  | _ =>
      first
        [ progress
            (cbv [get_self set_self lift raise send_remote_call py_index
                  dict_get get_attr assert_ finish_geom do_load_geom_box
                  do_load_geom_sphere do_load_geom_cylinder
                  do_load_geom_mesh set_num_link_geometries_by_link_name
                  set_link_subgeometry_local_tfs_by_link_name
                  set_published_scene set_current_publish_num] in H);
          minv H
        | progress (unfold mret, M_ret in H); simplify_eq
        | simplify_eq
        | idtac ]
  end.

(** ** The body of the geometry loop *)

Section Geometry.
Context `{L : PoseLib} `{O : Outside}.

Lemma names_of_app f l1 l2 :
  names_of f (l1 ++ l2) = names_of f l1 ++ names_of f l2.
Proof. apply omap_app. Qed.

Lemma names_of_overrides key ovs :
  names_of "register_object" (map (override_call key) ovs) = [].
Proof. induction ovs as [|o ovs IH]; [done | apply IH]. Qed.

Lemma geom_calls_ok_materials key b ovs :
  geom_calls_ok key b (map (override_call key) ovs).
Proof.
  revert b. induction ovs as [|o ovs IH]; intros b; [done|].
  simpl. split; [done | apply IH].
Qed.

Lemma geom_calls_ok_overrides key geom_name ovs b rest :
  geom_calls_ok key (b || existsb (λ o, re_match o geom_name) ovs) rest →
  geom_calls_ok key b
    (map (override_call key) (matching geom_name ovs) ++ rest).
Proof.
  revert b. induction ovs as [|o ovs IH]; intros b; simpl.
  - by rewrite orb_false_r.
  - unfold matching. rewrite filter_cons.
    destruct (re_match o geom_name) eqn:Hm; simpl.
    + rewrite orb_true_r. intros Hrest. split; [done|].
      apply IH. by rewrite orb_true_l.
    + apply IH.
Qed.

(** One pass of the loop body: the object is left as it was; a visible
    geometry adds its transform to [tfs], whatever its type; the one
    object registered, if the pass returns and the type is supported, is
    named after the position [j] the body was run at; and the calls are
    registrations of the geometry's material followed by at most that one
    object. *)
Lemma load_geom_run src frm robot j geom tfs s h r s' n :
  load_geom src frm robot j geom tfs s h = (r, s', n) →
  s' = s ∧
  (∀ tfs', r = Ok tfs' →
     tfs' = if visible geom then tfs ++ [local_tf geom] else tfs) ∧
  names_of "register_object" n
  = match r with
    | Ok _ => if visible geom && supported geom
              then ["obj_" +:+ _format_geom_name src frm robot j] else []
    | Raise _ => []
    end ∧
  geom_calls_ok ("material_" +:+ _format_geom_name src frm robot j) false n.
Proof.
  intros H. unfold load_geom in H. unfold visible, supported, local_tf.
  minv H;
    (split; [done|]; split; [by intros ? [= <-]|]; split;
     [ rewrite ?names_of_app, ?names_of_overrides; by try done
     | simpl; try done;
       first
         [ apply geom_calls_ok_materials
         | apply geom_calls_ok_overrides;
           try match goal with E : _ = _ |- _ => rewrite E end;
           simpl; try done;
           match goal with E : negb ?b = false |- _ => by destruct b end ] ]).
Qed.

End Geometry.

(** ** What the method bodies send *)

Section Emits.
Context `{L : PoseLib} `{O : Outside}.
Context (P : list RemoteCall → Prop) `{!Sequential P}.

Lemma emits_ret {A} (a : A) : emits P (mret a).
Proof. intros s h r s' n [= <- <- <-]. apply seq_nil. Qed.

Lemma emits_raise {A} e : emits P (raise e : M A).
Proof. intros s h r s' n [= <- <- <-]. apply seq_nil. Qed.

Lemma emits_lift {A} (x : result A) : emits P (lift x).
Proof. intros s h r s' n [= <- <- <-]. apply seq_nil. Qed.

Lemma emits_get_self : emits P get_self.
Proof. intros s h r s' n [= <- <- <-]. apply seq_nil. Qed.

Lemma emits_set_self s0 : emits P (set_self s0).
Proof. intros s h r s' n [= <- <- <-]. apply seq_nil. Qed.

Lemma emits_send f kw : P [mkCall f kw] → emits P (send_remote_call f kw).
Proof. intros Hc s h r s' n [= <- <- <-]. apply Hc. Qed.

Lemma emits_bind {A B} (m : M A) (k : A → M B) :
  emits P m → (∀ a, emits P (k a)) → emits P (m ≫= k).
Proof.
  intros Hm Hk s h r s' n H.
  apply bind_inv in H as [(e & H & ->)|(a & s1 & n1 & n2 & H1 & H2 & ->)].
  - by apply Hm in H.
  - apply seq_app; [by apply Hm in H1 | by apply Hk in H2].
Qed.

Lemma emits_py_index {A} (l : list A) i : emits P (py_index l i).
Proof.
  unfold py_index. destruct (l !! i); [apply emits_ret | apply emits_raise].
Qed.

Lemma emits_dict_get {A} (d : gmap string A) k : emits P (dict_get d k).
Proof.
  unfold dict_get. destruct (d !! k); [apply emits_ret | apply emits_raise].
Qed.

Lemma emits_get_attr {A} (a : option A) : emits P (get_attr a).
Proof.
  unfold get_attr. destruct a; [apply emits_ret | apply emits_raise].
Qed.

Lemma emits_assert b : emits P (assert_ b).
Proof. destruct b; [apply emits_ret | apply emits_raise]. Qed.

Lemma emits_for_enum {A} (body : nat → A → M unit) i l :
  (∀ i x, emits P (body i x)) → emits P (for_enum body i l).
Proof.
  intros Hb. revert i. induction l as [|x l IH]; intros i; simpl.
  - apply emits_ret.
  - apply emits_bind; [apply Hb | intros _; apply IH].
Qed.

Lemma emits_fold_enum {A St} (body : nat → A → St → M St) i l acc :
  (∀ i x acc, emits P (body i x acc)) → emits P (fold_enum body i l acc).
Proof.
  intros Hb. revert i acc. induction l as [|x l IH]; intros i acc; simpl.
  - apply emits_ret.
  - apply emits_bind; [apply Hb | intros acc'; apply IH].
Qed.

Lemma emits_for_range n (body : nat → M unit) :
  (∀ j, emits P (body j)) → emits P (for_range n body).
Proof. intros Hb. apply emits_for_enum. intros _ j. apply Hb. Qed.

End Emits.

Create HintDb emits.
#[local] Hint Resolve emits_ret emits_raise emits_lift emits_get_self
  emits_set_self emits_py_index emits_dict_get emits_get_attr emits_assert
  : emits.

(** Decomposes a goal [emits P m] along the structure of [m]. *)
Ltac emits_intro :=
  lazymatch goal with
  | |- Sequential _ => apply _
  | |- ∀ _, _ => intros; emits_intro
  | _ => idtac
  end.
Ltac emits_step :=
  lazymatch goal with
  | |- emits _ (_ ≫= _) => apply emits_bind; emits_intro
  | |- emits _ (for_enum _ _ _) => apply emits_for_enum; emits_intro
  | |- emits _ (fold_enum _ _ _ _) => apply emits_fold_enum; emits_intro
  | |- emits _ (for_range _ _) => apply emits_for_range; emits_intro
  | |- emits _ (send_remote_call _ _) => apply emits_send; emits_intro
  | |- emits _ (if ?b then _ else _) => destruct b
  | |- emits _ (match ?x with _ => _ end) => destruct x
  | |- emits _ _ => solve [auto with emits typeclass_instances]
  end.

(** ** Traces *)

#[local] Instance all_funcs_sequential fs : Sequential (all_funcs fs).
Proof.
  split; [apply Forall_nil_2 | intros n1 n2 ? ?; by apply Forall_app].
Qed.

Lemma all_funcs_weaken fs fs' n : fs ⊆ fs' → all_funcs fs n → all_funcs fs' n.
Proof.
  intros Hsub Hn. eapply Forall_impl; [exact Hn|]. intros c Hc.
  by apply Hsub.
Qed.

Lemma is_call_true f c : is_call f c = true ↔ func c = f.
Proof. apply String.eqb_eq. Qed.

(** A trace without calls to [f] has no [f]-names and no [f]-calls. *)
Lemma all_funcs_names_of f fs n :
  f ∉ fs → all_funcs fs n → names_of f n = [].
Proof.
  intros Hf. induction 1 as [|c n Hc _ IH]; [done|].
  unfold names_of. simpl. destruct (is_call f c) eqn:E; [|apply IH].
  apply is_call_true in E. by subst f.
Qed.

Lemma all_funcs_is_call f fs n i c :
  f ∉ fs → all_funcs fs n → n !! i = Some c → is_call f c = false.
Proof.
  intros Hf Hn Hi. destruct (is_call f c) eqn:E; [|done].
  apply is_call_true in E. subst f.
  by apply (Forall_lookup_1 _ _ _ _ Hn) in Hi.
Qed.

#[local] Instance materials_precede_objects_sequential :
  Sequential materials_precede_objects.
Proof.
  split.
  - intros i c Hi. by rewrite lookup_nil in Hi.
  - intros n1 n2 H1 H2 i c Hi Hc.
    apply lookup_app_Some in Hi as [Hi|[Hlen Hi]].
    + destruct (H1 i c Hi Hc) as (key & i' & c' & Hk & Hlt & Hi' & Hc').
      exists key, i', c'. split; [done|]. split; [done|].
      split; [by apply lookup_app_l_Some | done].
    + destruct (H2 _ c Hi Hc) as (key & i' & c' & Hk & Hlt & Hi' & Hc').
      exists key, (length n1 + i'), c'. split; [done|]. split; [lia|].
      split; [|done]. rewrite lookup_app_r by lia.
      by replace (length n1 + i' - length n1) with i' by lia.
Qed.

Lemma geom_calls_ok_lookup key n seen i c :
  geom_calls_ok key seen n → n !! i = Some c →
  is_call "register_object" c = true →
  str_kwarg "material" (kwargs c) = Some key ∧
  (seen = true ∨
   ∃ i' c', i' < i ∧ n !! i' = Some c'
     ∧ is_call "register_material" c' = true
     ∧ str_kwarg "name" (kwargs c') = Some key).
Proof.
  revert seen i. induction n as [|c0 n IH]; intros seen i Hok Hi Hc;
    [by rewrite lookup_nil in Hi|].
  simpl in Hok. destruct (is_call "register_material" c0) eqn:E0.
  - destruct Hok as [Hname Hok]. destruct i as [|i]; simpl in Hi.
    + injection Hi as ->. apply is_call_true in E0, Hc. congruence.
    + destruct (IH true i Hok Hi Hc) as [Hm _]. split; [done|].
      right. exists 0, c0. split; [lia|]. done.
  - destruct Hok as (_ & Hm & Hseen & ->). destruct i as [|i]; simpl in Hi.
    + injection Hi as ->. split; [done | by left].
    + by rewrite lookup_nil in Hi.
Qed.

Lemma geom_calls_ok_precede key n :
  geom_calls_ok key false n → materials_precede_objects n.
Proof.
  intros Hok i c Hi Hc.
  destruct (geom_calls_ok_lookup key n false i c Hok Hi Hc)
    as [Hm [?|(i' & c' & ? & ? & ? & ?)]]; [done|].
  by exists key, i', c'.
Qed.

Lemma geom_calls_ok_funcs key n seen :
  geom_calls_ok key seen n →
  all_funcs ["register_material"; "register_object"] n.
Proof.
  revert seen. induction n as [|c n IH]; intros seen Hok;
    [apply Forall_nil_2|].
  simpl in Hok. destruct (is_call "register_material" c) eqn:E.
  - destruct Hok as [_ Hok]. apply Forall_cons. split; [|by eapply IH].
    apply is_call_true in E. rewrite E. repeat constructor.
  - destruct Hok as (Hc & _ & _ & ->). apply Forall_cons.
    split; [|apply Forall_nil_2]. apply is_call_true in Hc. rewrite Hc.
    repeat constructor.
Qed.

(** ** What [load] and [_DoPublish] send *)

Section Load.
Context `{L : PoseLib} `{O : Outside}.

Lemma emits_load_geom_precede src frm robot j geom tfs :
  emits materials_precede_objects (load_geom src frm robot j geom tfs).
Proof.
  intros s h r s' n H. apply load_geom_run in H as (_ & _ & _ & Hok).
  by eapply geom_calls_ok_precede.
Qed.

Lemma emits_load_geom_funcs src frm robot j geom tfs :
  emits (all_funcs load_funcs) (load_geom src frm robot j geom tfs).
Proof.
  intros s h r s' n H. apply load_geom_run in H as (_ & _ & _ & Hok).
  apply geom_calls_ok_funcs in Hok.
  eapply all_funcs_weaken; [|done]. unfold load_funcs.
  intros f Hf. rewrite !elem_of_cons in Hf. rewrite !elem_of_cons. tauto.
Qed.

Lemma one_call_funcs f kw fs : f ∈ fs → all_funcs fs [mkCall f kw].
Proof. intros Hf. by apply Forall_singleton. Qed.

Lemma one_call_precede f kw :
  f ≠ "register_object" → materials_precede_objects [mkCall f kw].
Proof.
  intros Hf [|i] c Hi Hc; simpl in Hi; [|by rewrite lookup_nil in Hi].
  injection Hi as <-. by apply is_call_true in Hc.
Qed.

(** [load] only sends calls to the functions of [load_funcs]. *)
Lemma emits_load_funcs msg : emits (all_funcs load_funcs) (load msg).
Proof.
  unfold load, load_link, load_camera,
    set_num_link_geometries_by_link_name,
    set_link_subgeometry_local_tfs_by_link_name.
  repeat first
    [ apply emits_load_geom_funcs
    | by apply one_call_funcs; unfold load_funcs; set_solver
    | emits_step ].
Qed.

(** In what [load] sends, object registrations follow the registration
    of their material. *)
Lemma emits_load_precede msg : emits materials_precede_objects (load msg).
Proof.
  unfold load, load_link, load_camera,
    set_num_link_geometries_by_link_name,
    set_link_subgeometry_local_tfs_by_link_name.
  repeat first
    [ apply emits_load_geom_precede
    | by apply one_call_precede
    | emits_step ].
Qed.

(** [_DoPublish] only sends calls to the functions of [publish_funcs]. *)
Lemma emits_publish_funcs pose_bundle :
  emits (all_funcs publish_funcs) (_DoPublish pose_bundle).
Proof.
  unfold _DoPublish, publish_frame, publish_geom, render_image,
    set_published_scene, set_current_publish_num.
  repeat first
    [ by apply one_call_funcs; unfold publish_funcs; set_solver
    | emits_step ].
Qed.

Lemma emits_publish_all_funcs bundles :
  emits (all_funcs publish_funcs) (publish_all bundles).
Proof.
  induction bundles as [|pb bundles IH]; simpl; [emits_step|].
  emits_step; [apply emits_publish_funcs | done].
Qed.

End Load.

(** A literal that is none of the listed ones. *)
Ltac not_listed :=
  let H := fresh in
  intros H; repeat (apply elem_of_cons in H as [H|H]; [discriminate|]);
  by apply elem_of_nil in H.

(** ** The order of the calls of a session *)

Section Order.
Context `{L : PoseLib} `{O : Outside}.

Lemma all_funcs_precede fs n :
  "register_object" ∉ fs → all_funcs fs n → materials_precede_objects n.
Proof.
  intros Hf Hn i c Hi Hc.
  by rewrite (all_funcs_is_call _ fs n i c Hf Hn Hi) in Hc.
Qed.

Lemma load_funcs_no_update : "update_parameters" ∉ load_funcs.
Proof. not_listed. Qed.

Lemma publish_funcs_no_material : "register_material" ∉ publish_funcs.
Proof. not_listed. Qed.

Lemma publish_funcs_no_object : "register_object" ∉ publish_funcs.
Proof. not_listed. Qed.

(** Registrations in a trace of [load] followed by a trace of publishes
    all come first. *)
Lemma load_then_publish_order nl np :
  all_funcs load_funcs nl → all_funcs publish_funcs np →
  registrations_precede_updates (nl ++ np).
Proof.
  intros Hl Hp i i' c c' Hi Hi' Hc Hc'.
  apply lookup_app_Some in Hi as [Hi|[_ Hi]].
  - apply lookup_app_Some in Hi' as [Hi'|[Hlen _]].
    + by rewrite (all_funcs_is_call _ _ nl i' c' load_funcs_no_update Hl Hi')
        in Hc'.
    + apply lookup_lt_Some in Hi. lia.
  - unfold is_registration in Hc.
    rewrite (all_funcs_is_call _ _ np _ c publish_funcs_no_material Hp Hi),
      (all_funcs_is_call _ _ np _ c publish_funcs_no_object Hp Hi) in Hc.
    done.
Qed.

(** C6. In the stream of remote calls of a session (the [load] of the
    initialization event, then the publishes), every [register_object]
    call is preceded by a [register_material] call for the material key
    it refers to, and every [register_material] and [register_object]
    call precedes every [update_parameters] call.  This holds of whatever
    the session has sent, also when it ends in an exception. *)
Theorem C6_registrations_come_first msg bundles s h :
  materials_precede_objects (calls (session msg bundles s h))
  ∧ registrations_precede_updates (calls (session msg bundles s h)).
Proof.
  destruct (session msg bundles s h) as [[r s'] n] eqn:H.
  unfold calls; simpl. unfold session in H.
  apply bind_inv in H as [(e & H & ->)|(a & s1 & nl & np & Hl & Hp & ->)].
  - pose proof (emits_load_funcs msg _ _ _ _ _ H) as Hf. split.
    + by apply emits_load_precede in H.
    + rewrite <- (app_nil_r n). apply load_then_publish_order; [done|].
      apply Forall_nil_2.
  - pose proof (emits_load_funcs msg _ _ _ _ _ Hl) as Hf.
    pose proof (emits_publish_all_funcs bundles _ _ _ _ _ Hp) as Hf'.
    split.
    + apply seq_app; [by apply emits_load_precede in Hl|].
      by apply (all_funcs_precede publish_funcs), Hf';
        apply publish_funcs_no_object.
    + by apply load_then_publish_order.
Qed.

End Order.

(** ** What the method bodies leave unchanged *)

Section Keeps.
Context `{L : PoseLib} `{O : Outside}.
Context {X : Type} (f : BlenderColorCamera → X).

Lemma keeps_ret {A} (a : A) : keeps f (mret a).
Proof. by intros s h r s' n [= <- <- <-]. Qed.

Lemma keeps_raise {A} e : keeps f (raise e : M A).
Proof. by intros s h r s' n [= <- <- <-]. Qed.

Lemma keeps_lift {A} (x : result A) : keeps f (lift x).
Proof. by intros s h r s' n [= <- <- <-]. Qed.

Lemma keeps_get_self : keeps f get_self.
Proof. by intros s h r s' n [= <- <- <-]. Qed.

Lemma keeps_send g kw : keeps f (send_remote_call g kw).
Proof. by intros s h r s' n [= <- <- <-]. Qed.

Lemma keeps_bind {A B} (m : M A) (k : A → M B) :
  keeps f m → (∀ a, keeps f (k a)) → keeps f (m ≫= k).
Proof.
  intros Hm Hk s h r s' n H.
  apply bind_inv in H as [(e & H & ->)|(a & s1 & n1 & n2 & H1 & H2 & ->)].
  - by apply Hm in H.
  - apply Hk in H2. apply Hm in H1. congruence.
Qed.

Lemma keeps_py_index {A} (l : list A) i : keeps f (py_index l i).
Proof.
  unfold py_index. destruct (l !! i); [apply keeps_ret | apply keeps_raise].
Qed.

Lemma keeps_dict_get {A} (d : gmap string A) k : keeps f (dict_get d k).
Proof.
  unfold dict_get. destruct (d !! k); [apply keeps_ret | apply keeps_raise].
Qed.

Lemma keeps_get_attr {A} (a : option A) : keeps f (get_attr a).
Proof.
  unfold get_attr. destruct a; [apply keeps_ret | apply keeps_raise].
Qed.

Lemma keeps_assert b : keeps f (assert_ b).
Proof. destruct b; [apply keeps_ret | apply keeps_raise]. Qed.

Lemma keeps_for_enum {A} (body : nat → A → M unit) i l :
  (∀ i x, keeps f (body i x)) → keeps f (for_enum body i l).
Proof.
  intros Hb. revert i. induction l as [|x l IH]; intros i; simpl.
  - apply keeps_ret.
  - apply keeps_bind; [apply Hb | intros _; apply IH].
Qed.

Lemma keeps_fold_enum {A St} (body : nat → A → St → M St) i l acc :
  (∀ i x acc, keeps f (body i x acc)) → keeps f (fold_enum body i l acc).
Proof.
  intros Hb. revert i acc. induction l as [|x l IH]; intros i acc; simpl.
  - apply keeps_ret.
  - apply keeps_bind; [apply Hb | intros acc'; apply IH].
Qed.

Lemma keeps_for_range n (body : nat → M unit) :
  (∀ j, keeps f (body j)) → keeps f (for_range n body).
Proof. intros Hb. apply keeps_for_enum. intros _ j. apply Hb. Qed.

Lemma keeps_load_geom src frm robot j geom tfs :
  keeps f (load_geom src frm robot j geom tfs).
Proof.
  intros s h r s' n H. by apply load_geom_run in H as (-> & _).
Qed.

End Keeps.

Create HintDb keeps.
#[local] Hint Resolve keeps_ret keeps_raise keeps_lift keeps_get_self
  keeps_send keeps_py_index keeps_dict_get keeps_get_attr keeps_assert
  keeps_load_geom : keeps.

(** Decomposes a goal [keeps f m] along the structure of [m]. *)
Ltac keeps_intro :=
  lazymatch goal with
  | |- ∀ _, _ => intros; keeps_intro
  | _ => idtac
  end.
Ltac keeps_step :=
  lazymatch goal with
  | |- keeps _ (_ ≫= _) => apply keeps_bind; keeps_intro
  | |- keeps _ (for_enum _ _ _) => apply keeps_for_enum; keeps_intro
  | |- keeps _ (fold_enum _ _ _ _) => apply keeps_fold_enum; keeps_intro
  | |- keeps _ (for_range _ _) => apply keeps_for_range; keeps_intro
  | |- keeps _ (set_self _) => by intros ? ? ? ? ? [= <- <- <-]
  | |- keeps _ (if ?b then _ else _) => destruct b
  | |- keeps _ (match ?x with _ => _ end) => destruct x
  | |- keeps _ _ => solve [auto with keeps]
  end.

(** ** The publish counter and the scene snapshot *)

Section Snapshot.
Context `{L : PoseLib} `{O : Outside}.

Lemma keeps_counter_set_num d :
  keeps current_publish_num (set_num_link_geometries_by_link_name d).
Proof. by intros s h r s' n [= <- <- <-]. Qed.

Lemma keeps_counter_set_tfs d :
  keeps current_publish_num (set_link_subgeometry_local_tfs_by_link_name d).
Proof. by intros s h r s' n [= <- <- <-]. Qed.

(** [load] does not touch the publish counter. *)
Lemma keeps_load_counter msg : keeps current_publish_num (load msg).
Proof.
  unfold load, load_link, load_camera.
  repeat first
    [apply keeps_counter_set_num | apply keeps_counter_set_tfs | keeps_step].
Qed.

Lemma saves_app n1 n2 : saves (n1 ++ n2) = saves n1 + saves n2.
Proof. unfold saves. by rewrite filter_app, length_app. Qed.

Lemma all_funcs_saves fs n :
  "save_current_scene" ∉ fs → all_funcs fs n → saves n = 0.
Proof.
  intros Hf. unfold saves. induction 1 as [|c n Hc _ IH]; [done|].
  rewrite filter_cons. destruct (decide _) as [E|]; [|done].
  apply is_call_true in E. by rewrite E in Hc.
Qed.

Lemma load_saves_nothing msg s h r s' n :
  load msg s h = (r, s', n) → saves n = 0.
Proof.
  intros H. apply emits_load_funcs in H.
  eapply all_funcs_saves; [|done]. unfold load_funcs. not_listed.
Qed.

(** The two loops of [_DoPublish] neither save the scene nor touch the
    counter. *)
Lemma publish_frames_run pose_bundle i s h r s' n :
  for_enum (λ _ entry, publish_frame entry) i pose_bundle s h = (r, s', n) →
  current_publish_num s' = current_publish_num s ∧ saves n = 0.
Proof.
  intros H. split.
  - revert H. generalize s h r s' n.
    change (keeps current_publish_num
              (for_enum (λ _ entry, publish_frame entry) i pose_bundle)).
    unfold publish_frame, publish_geom. repeat keeps_step.
  - apply (all_funcs_saves ["update_parameters"]); [not_listed|].
    revert H. generalize s h r s' n.
    change (emits (all_funcs ["update_parameters"])
              (for_enum (λ _ entry, publish_frame entry) i pose_bundle)).
    unfold publish_frame, publish_geom.
    repeat first [by apply one_call_funcs; repeat constructor | emits_step].
Qed.

Lemma render_images_run k s h r s' n :
  for_range k render_image s h = (r, s', n) →
  current_publish_num s' = current_publish_num s ∧ saves n = 0.
Proof.
  intros H. split.
  - revert H. generalize s h r s' n.
    change (keeps current_publish_num (for_range k render_image)).
    unfold render_image. repeat keeps_step.
  - apply (all_funcs_saves ["render_image"]); [not_listed|].
    revert H. generalize s h r s' n.
    change (emits (all_funcs ["render_image"]) (for_range k render_image)).
    unfold render_image.
    repeat first [by apply one_call_funcs; repeat constructor | emits_step].
Qed.

(** A publish that returns has advanced the counter by one and has saved
    the scene exactly when it found the counter at 0. *)
Lemma publish_run pose_bundle s h s' n :
  _DoPublish pose_bundle s h = (Ok tt, s', n) →
  current_publish_num s' = current_publish_num s + 1
  ∧ saves n = if (current_publish_num s =? 0)%nat then 1 else 0.
Proof.
  intros H. unfold _DoPublish in H. minv H.
  all: repeat match goal with
       | Hf : for_enum _ _ _ _ _ = _ |- _ =>
           apply publish_frames_run in Hf as [? ?]
       | Hr : for_range _ _ _ _ = _ |- _ =>
           apply render_images_run in Hr as [? ?]
       end.
  all: simpl; rewrite ?saves_app.
  all: repeat match goal with
       | Hs : saves _ = 0 |- _ => rewrite Hs; clear Hs
       end.
  all: repeat match goal with
       | Hc : current_publish_num _ = current_publish_num _ |- _ =>
           rewrite Hc in *; clear Hc
       end.
  all: match goal with E : (_ =? 0)%nat = _ |- _ => rewrite E end.
  all: done.
Qed.

(** The publishes of a session that all return: the counter has advanced
    by their number, and the scene was saved once if the counter started
    at 0 and there was a publish at all, never otherwise. *)
Lemma publish_all_run bundles s h s' n :
  publish_all bundles s h = (Ok tt, s', n) →
  current_publish_num s' = current_publish_num s + length bundles
  ∧ saves n = if (current_publish_num s =? 0)%nat
              then (if bundles is [] then 0 else 1) else 0.
Proof.
  revert s h n. induction bundles as [|pb bundles IH]; intros s h n H.
  - injection H as <- <-. simpl. split; [lia | by destruct (_ =? _)%nat].
  - simpl in H.
    apply bind_inv in H as [(e & _ & [=])|(a & s1 & n1 & n2 & H1 & H2 & ->)].
    destruct a. apply publish_run in H1 as [Hc1 Hs1].
    apply IH in H2 as [Hc2 Hs2]. rewrite saves_app, Hs1, Hs2, Hc2, Hc1.
    split; [simpl; lia|].
    replace (current_publish_num s + 1 =? 0)%nat with false
      by (symmetry; apply Nat.eqb_neq; lia).
    by destruct (_ =? _)%nat.
Qed.

(** C7. In a session of more than one tick that starts with the publish
    counter at 0 and whose ticks all return, [save_current_scene] is sent
    exactly once: [load] does not send it, the first tick, which finds the
    counter at 0, sends it once, and the later ticks, which find a positive
    counter, never send it. *)
Theorem C7_scene_saved_once msg bundles s h s' n :
  current_publish_num s = 0 →
  1 < length bundles →
  session msg bundles s h = (Ok tt, s', n) →
  saves n = 1
  ∧ ∃ pose_bundle rest sl nl s1 n1 n2,
      bundles = pose_bundle :: rest
      ∧ load msg s h = (Ok tt, sl, nl)
      ∧ _DoPublish pose_bundle sl (h ++ nl) = (Ok tt, s1, n1)
      ∧ publish_all rest s1 ((h ++ nl) ++ n1) = (Ok tt, s', n2)
      ∧ n = nl ++ n1 ++ n2
      ∧ saves nl = 0
      ∧ current_publish_num sl = 0 ∧ saves n1 = 1
      ∧ current_publish_num s1 = 1 ∧ saves n2 = 0.
Proof.
  intros Hs Hlen H. destruct bundles as [|pb rest]; [simpl in Hlen; lia|].
  unfold session in H.
  apply bind_inv in H as [(e & _ & [=])|(a & sl & nl & np & Hl & Hp & ->)].
  destruct a. simpl in Hp.
  apply bind_inv in Hp as [(e & _ & [=])|(a & s1 & n1 & n2 & H1 & H2 & ->)].
  destruct a.
  pose proof (keeps_load_counter msg _ _ _ _ _ Hl) as Hcl. rewrite Hs in Hcl.
  pose proof (load_saves_nothing msg _ _ _ _ _ Hl) as Hsl.
  destruct (publish_run _ _ _ _ _ H1) as [Hc1 Hs1]. rewrite Hcl in Hc1, Hs1.
  destruct (publish_all_run _ _ _ _ _ H2) as [_ Hs2]. rewrite Hc1 in Hs2.
  simpl in Hc1, Hs1, Hs2. rewrite !saves_app, Hsl, Hs1, Hs2.
  split; [done|]. by exists pb, rest, sl, nl, s1, n1, n2.
Qed.

End Snapshot.

(** ** The names registered by [load] *)

Section Names.
Context `{L : PoseLib} `{O : Outside}.

(** The loop over the geometries of a link, when it returns: the
    transforms of the visible geometries were appended to [tfs], and the
    objects were registered under their position-based names. *)
Lemma load_geoms_run src frm robot geoms j tfs s h tfs' s' n :
  fold_enum (load_geom src frm robot) j geoms tfs s h = (Ok tfs', s', n) →
  s' = s
  ∧ tfs' = tfs ++ map local_tf (filter (λ g, visible g = true) geoms)
  ∧ names_of "register_object" n = object_names_from src frm robot j geoms.
Proof.
  revert j tfs h n. induction geoms as [|g geoms IH]; intros j tfs h n H.
  - injection H as <- <- <-. by rewrite app_nil_r.
  - simpl in H.
    apply bind_inv in H as [(e & _ & [=])|(a & s1 & n1 & n2 & H1 & H2 & ->)].
    apply load_geom_run in H1 as (-> & Ha & Hn1 & _).
    apply IH in H2 as (-> & -> & Hn2). split; [done|].
    rewrite names_of_app, Hn1, Hn2, (Ha a eq_refl), filter_cons. simpl.
    split; [|done]. destruct (visible g); simpl; [|done].
    by rewrite <- app_assoc.
Qed.

Lemma load_link_names link s h s' n :
  load_link link s h = (Ok tt, s', n) →
  names_of "register_object" n = link_object_names link.
Proof.
  intros H. unfold load_link in H. unfold link_object_names. minv H.
  match goal with
  | Hf : fold_enum _ _ _ _ _ _ = _ |- _ =>
      apply load_geoms_run in Hf as (_ & _ & Hn)
  end.
  match goal with Hp : _parse_name _ = _ |- _ => rewrite Hp end.
  simpl. by rewrite !app_nil_r.
Qed.

(** What a link leaves in the two tables when its loop body returns: the
    number of its records, and the transforms of its visible ones. *)
Lemma load_link_tables link s h s' n :
  load_link link s h = (Ok tt, s', n) →
  ∃ nums tfss,
    num_link_geometries_by_link_name s'
    = Some (<[name link := num_geom link]> nums)
    ∧ link_subgeometry_local_tfs_by_link_name s'
      = Some (<[name link :=
                  map local_tf (filter (λ g, visible g = true) (geom link))]>
                tfss).
Proof.
  intros H. unfold load_link in H. minv H.
  match goal with
  | Hf : fold_enum _ _ _ _ _ _ = _ |- _ =>
      apply load_geoms_run in Hf as (-> & -> & _)
  end.
  simpl in *. simplify_eq. eauto.
Qed.

Lemma load_links_names msg i s h s' n :
  for_enum (λ _ link, load_link link) i msg s h = (Ok tt, s', n) →
  names_of "register_object" n = load_object_names msg.
Proof.
  revert i s h n. induction msg as [|link msg IH]; intros i s h n H.
  - by injection H as <- <-.
  - simpl in H.
    apply bind_inv in H as [(e & _ & [=])|(a & s1 & n1 & n2 & H1 & H2 & ->)].
    destruct a. apply load_link_names in H1. apply IH in H2.
    by rewrite names_of_app, H1, H2.
Qed.

Lemma load_cameras_names cams i s h r s' n :
  for_enum load_camera i cams s h = (r, s', n) →
  names_of "register_object" n = [].
Proof.
  intros H.
  apply (all_funcs_names_of _ ["register_camera"; "configure_rendering"]);
    [not_listed|].
  revert H. generalize s h r s' n.
  change (emits (all_funcs ["register_camera"; "configure_rendering"])
            (for_enum load_camera i cams)).
  unfold load_camera.
  repeat first [by apply one_call_funcs; repeat constructor | emits_step].
Qed.

(** The objects that a [load] that returns has registered, in order. *)
Lemma load_names msg s h s' n :
  load msg s h = (Ok tt, s', n) →
  names_of "register_object" n = load_object_names msg.
Proof.
  intros H. unfold load in H. minv H.
  repeat match goal with u : () |- _ => destruct u end.
  repeat match goal with
  | Hf : for_enum load_camera _ _ _ _ = _ |- _ =>
      apply load_cameras_names in Hf
  | Hf : for_enum _ _ _ _ _ = _ |- _ => apply load_links_names in Hf
  end.
  rewrite !names_of_app.
  repeat match goal with Hn : names_of _ _ = _ |- _ => rewrite Hn end.
  simpl. by rewrite app_nil_r.
Qed.

Lemma elem_of_object_names_from src frm robot geoms j x :
  x ∈ object_names_from src frm robot j geoms ↔
  ∃ k g, geoms !! k = Some g ∧ visible g = true ∧ supported g = true
         ∧ x = "obj_" +:+ _format_geom_name src frm robot (j + k).
Proof.
  revert j. induction geoms as [|g0 geoms IH]; intros j; simpl.
  - split; [by intros ?%elem_of_nil|]. by intros (k & g & ? & _).
  - rewrite elem_of_app, IH. split.
    + intros [Hx|(k & g & Hk & Hv & Hs & ->)].
      * destruct (visible g0) eqn:Hv, (supported g0) eqn:Hs; simpl in Hx;
          try by apply elem_of_nil in Hx.
        apply list_elem_of_singleton in Hx as ->. exists 0, g0.
        by rewrite Nat.add_0_r.
      * exists (S k), g. by rewrite Nat.add_succ_r.
    + intros ([|k] & g & Hk & Hv & Hs & ->); simpl in Hk.
      * injection Hk as ->. left. rewrite Hv, Hs, Nat.add_0_r. simpl.
        by apply list_elem_of_singleton.
      * right. exists k, g. by rewrite Nat.add_succ_r.
Qed.

Lemma elem_of_load_object_names msg x :
  x ∈ load_object_names msg ↔
  ∃ link src frm j g,
    link ∈ msg ∧ _parse_name (name link) = Ok (src, frm)
    ∧ geom link !! j = Some g ∧ visible g = true ∧ supported g = true
    ∧ x = "obj_" +:+ _format_geom_name src frm (robot_num link) j.
Proof.
  unfold load_object_names.
  induction msg as [|link msg IH]; simpl.
  - split; [by intros ?%elem_of_nil|].
    by intros (? & ? & ? & ? & ? & ?%elem_of_nil & _).
  - rewrite elem_of_app, IH. unfold link_object_names. split.
    + intros [Hx|(l & src & frm & j & g & Hl & Hrest)].
      * destruct (_parse_name (name link)) as [[src frm]|] eqn:Hp;
          [|by apply elem_of_nil in Hx].
        apply elem_of_object_names_from in Hx as (k & g & Hk & Hv & Hs & ->).
        exists link, src, frm, k, g. split; [by left | done].
      * exists l, src, frm, j, g. split; [by right | done].
    + intros (l & src & frm & j & g & Hl & Hp & Hk & Hv & Hs & ->).
      apply elem_of_cons in Hl as [->|Hl].
      * left. rewrite Hp. apply elem_of_object_names_from. by exists j, g.
      * right. by exists l, src, frm, j, g.
Qed.

(** C3 (as amended). The index in the derived name of a registered
    geometry is the raw position of its record in the link's geometry
    list: the objects that a [load] that returns has registered are
    exactly those named [obj_source::model::frame::j] for the records at
    position [j] that are visible and of a supported type.  A zero-alpha
    record keeps its index slot; later geometries are not renumbered. *)
Theorem C3_index_is_record_position msg s h s' n x :
  load msg s h = (Ok tt, s', n) →
  x ∈ names_of "register_object" n ↔
  ∃ link src frm j g,
    link ∈ msg ∧ _parse_name (name link) = Ok (src, frm)
    ∧ geom link !! j = Some g ∧ visible g = true ∧ supported g = true
    ∧ x = "obj_" +:+ _format_geom_name src frm (robot_num link) j.
Proof.
  intros H. rewrite (load_names _ _ _ _ _ H).
  apply elem_of_load_object_names.
Qed.

Lemma obj_name_inj (s1 s2 f1 f2 : string) (m1 m2 : Z) (j1 j2 : nat) :
  first_delim s1 → first_delim s2 →
  "obj_" +:+ _format_geom_name s1 f1 m1 j1
  = "obj_" +:+ _format_geom_name s2 f2 m2 j2 →
  s1 = s2 ∧ f1 = f2 ∧ m1 = m2 ∧ j1 = j2.
Proof.
  intros H1 H2 Heq. apply String.app_inj in Heq.
  by apply format_geom_name_inj.
Qed.

Lemma object_names_from_NoDup src frm robot geoms j :
  first_delim src → NoDup (object_names_from src frm robot j geoms).
Proof.
  intros Hsrc. revert j. induction geoms as [|g geoms IH]; intros j; simpl.
  - apply NoDup_nil_2.
  - apply NoDup_app. split; [|split; [|apply IH]].
    + destruct (visible g && supported g);
        [apply NoDup_singleton | apply NoDup_nil_2].
    + intros x Hx Hx'.
      destruct (visible g && supported g); [|by apply elem_of_nil in Hx].
      apply list_elem_of_singleton in Hx as ->.
      apply elem_of_object_names_from in Hx' as (k & g' & _ & _ & _ & Heq).
      apply obj_name_inj in Heq as (_ & _ & _ & Hj); [lia|done..].
Qed.

Lemma load_object_names_NoDup msg :
  NoDup (map (λ link, (name link, robot_num link)) msg) →
  NoDup (load_object_names msg).
Proof.
  unfold load_object_names.
  induction msg as [|link msg IH]; simpl; [intros _; apply NoDup_nil_2|].
  intros [Hnotin Hnd]%NoDup_cons. apply NoDup_app.
  split; [|split; [|by apply IH]].
  - unfold link_object_names.
    destruct (_parse_name (name link)) as [[src frm]|] eqn:Hp;
      [|apply NoDup_nil_2].
    apply object_names_from_NoDup. by apply parse_name_ok in Hp as [_ ?].
  - intros x Hx Hx'. apply Hnotin.
    unfold link_object_names in Hx.
    destruct (_parse_name (name link)) as [[src frm]|] eqn:Hp;
      [|by apply elem_of_nil in Hx].
    apply elem_of_object_names_from in Hx as (k & g & _ & _ & _ & ->).
    apply elem_of_load_object_names in Hx'
      as (l & src' & frm' & j' & g' & Hl & Hp' & _ & _ & _ & Heq).
    apply parse_name_ok in Hp as [Hn Hsrc].
    apply parse_name_ok in Hp' as [Hn' Hsrc'].
    apply obj_name_inj in Heq as (-> & -> & Hr & _); [|done..].
    apply list_elem_of_fmap. exists l. split; [|done].
    by rewrite Hr, Hn, Hn'.
Qed.

(** C9 (as amended). When no two links of the load message share both
    their name and their model-instance number, the names of the objects
    that a [load] that returns has registered are pairwise distinct; and
    two links with the same frame name but different source names or
    different model-instance numbers never give the same derived name,
    whatever the positions of the two geometries. *)
Theorem C9_names_distinct msg s h s' n :
  load msg s h = (Ok tt, s', n) →
  NoDup (map (λ link, (name link, robot_num link)) msg) →
  NoDup (names_of "register_object" n)
  ∧ ∀ link1 link2 src1 src2 frm j1 j2,
      _parse_name (name link1) = Ok (src1, frm) →
      _parse_name (name link2) = Ok (src2, frm) →
      src1 ≠ src2 ∨ robot_num link1 ≠ robot_num link2 →
      _format_geom_name src1 frm (robot_num link1) j1
      ≠ _format_geom_name src2 frm (robot_num link2) j2.
Proof.
  intros H Hnd. split.
  - rewrite (load_names _ _ _ _ _ H). by apply load_object_names_NoDup.
  - intros l1 l2 src1 src2 frm j1 j2 [_ H1]%parse_name_ok
      [_ H2]%parse_name_ok Hne Heq.
    apply format_geom_name_inj in Heq as (? & _ & ? & _); [|done..].
    by destruct Hne.
Qed.

End Names.

(** ** The material of a geometry *)

Section Materials.
Context `{L : PoseLib} `{O : Outside}.

Lemma matching_nil geom_name ovs :
  existsb (λ o, re_match o geom_name) ovs = false
  ↔ matching geom_name ovs = [].
Proof.
  unfold matching. induction ovs as [|o ovs IH]; simpl; [done|].
  rewrite filter_cons. destruct (re_match o geom_name); simpl; [|done].
  split; intros; done.
Qed.

Lemma filter_override_calls key ovs :
  filter (λ c, is_call "register_material" c = true)
    (map (override_call key) ovs)
  = map (override_call key) ovs.
Proof.
  induction ovs as [|o ovs IH]; [done|]. simpl. rewrite filter_cons.
  simpl. by rewrite IH.
Qed.

Lemma filter_object_call kw :
  filter (λ c, is_call "register_material" c = true)
    [mkCall "register_object" kw]
  = [].
Proof. reflexivity. Qed.

(** The start of the loop body for a visible geometry. *)
Lemma visible_alpha geom :
  visible geom = true →
  ∃ alpha, color geom !! 3 = Some alpha ∧ (alpha =? 0)%float = false.
Proof.
  unfold visible. destruct (color geom !! 3) as [alpha|]; [|done].
  intros Hv. exists alpha. split; [done|]. by apply negb_true_iff.
Qed.

Lemma unsupported_type geom :
  supported geom = false →
  (type geom =? BOX)%Z = false ∧ (type geom =? SPHERE)%Z = false
  ∧ (type geom =? CYLINDER)%Z = false ∧ (type geom =? MESH)%Z = false.
Proof.
  unfold supported. intros Hs.
  repeat (apply orb_false_iff in Hs as [Hs ?]). done.
Qed.

(** The loop body on a geometry with nonzero alpha that the transform
    library rejects: the exception of the library, before anything is
    sent or cached. *)
Lemma load_geom_rejected src frm robot j g tfs s h e :
  visible g = true →
  rejects (quaternion g) (position g) = Some e →
  load_geom src frm robot j g tfs s h = (Raise e, s, []).
Proof.
  intros (alpha & Ha & Hz)%visible_alpha He. unfold load_geom, py_index.
  by rewrite run_bind, Ha, run_ret, Hz, run_bind, run_transform, He.
Qed.

(** The loop body on a geometry with nonzero alpha that the transform
    library accepts, up to the test of the type: the transform is
    appended and the override rules are walked. *)
Lemma load_geom_visible src frm robot j g tfs s h :
  visible g = true →
  accepted g = true →
  load_geom src frm robot j g tfs s h
  = (let geom_name := _format_geom_name src frm robot j in
     let tfs := tfs ++ [GetAsMatrix4 (quaternion g) (position g)] in
     let material_key := "material_" +:+ geom_name in
     material_key_assigned ←
       check_overrides material_key geom_name (material_overrides s) false;
     if (type g =? BOX)%Z then
       assert_ (num_float_data g =? 3)%nat;;
       finish_geom g material_key material_key_assigned
         (do_load_geom_box g geom_name material_key);;
       mret tfs
     else if (type g =? SPHERE)%Z then
       assert_ (num_float_data g =? 1)%nat;;
       finish_geom g material_key material_key_assigned
         (do_load_geom_sphere g geom_name material_key);;
       mret tfs
     else if (type g =? CYLINDER)%Z then
       assert_ (num_float_data g =? 2)%nat;;
       finish_geom g material_key material_key_assigned
         (do_load_geom_cylinder g geom_name material_key);;
       mret tfs
     else if (type g =? MESH)%Z then
       let candidate_texture_path_png :=
         str_drop_last3 (string_data g) +:+ "png" in
       material_key_assigned ←
         (if negb material_key_assigned
             && path_exists candidate_texture_path_png then
            send_remote_call "register_material"
              [("name", PStr material_key);
               ("material_type", PStr "color_texture");
               ("path", PStr candidate_texture_path_png)]
          else mret material_key_assigned);
       finish_geom g material_key material_key_assigned
         (do_load_geom_mesh g geom_name material_key);;
       mret tfs
     else mret tfs) s h.
Proof.
  intros (alpha & Ha & Hz)%visible_alpha Hacc. unfold load_geom, py_index.
  rewrite run_bind, Ha, run_ret, Hz. cbv zeta.
  rewrite run_bind, run_transform. unfold accepted in Hacc.
  destruct (rejects (quaternion g) (position g)); [done|].
  rewrite run_bind. cbn [get_self]. rewrite !app_nil_r.
  match goal with |- _ = ?m => by destruct m as [[? ?] ?] end.
Qed.

(** The override loop when the arguments of every matching rule can be
    passed. *)
Lemma check_overrides_passable key geom_name ovs b s h :
  forallb passable (matching geom_name ovs) = true →
  check_overrides key geom_name ovs b s h
  = (Ok (b || existsb (λ o, re_match o geom_name) ovs), s,
     map (override_call key) (matching geom_name ovs)).
Proof. intros Hp. by rewrite check_overrides_run, Hp, passed_all. Qed.

(** C4 (as amended). For a visible geometry that the transform library
    accepts and whose derived name is matched by at least one override
    rule, the arguments of the matching rules not containing [name]: the
    [register_material] calls that the loop body sends are exactly one
    call per matching rule, in declaration order, each naming the
    geometry's material key and carrying that rule's arguments; no
    texture or flat-colour material is registered besides.  With one
    matching rule that is exactly one call. *)
Theorem C4_every_matching_rule_registers
    src frm robot j geom tfs s h r s' n :
  load_geom src frm robot j geom tfs s h = (r, s', n) →
  visible geom = true →
  accepted geom = true →
  forallb passable
    (matching (_format_geom_name src frm robot j) (material_overrides s))
  = true →
  matching (_format_geom_name src frm robot j) (material_overrides s) ≠ [] →
  filter (λ c, is_call "register_material" c = true) n
  = map (override_call ("material_" +:+ _format_geom_name src frm robot j))
      (matching (_format_geom_name src frm robot j) (material_overrides s)).
Proof.
  intros H Hv Hacc Hpass Hm.
  rewrite load_geom_visible in H by done. cbv zeta in H.
  destruct (existsb (λ o, re_match o (_format_geom_name src frm robot j))
              (material_overrides s)) eqn:Hex;
    [|by apply matching_nil in Hex].
  apply bind_inv in H as [(e & H1 & _)|(b & s1 & n1 & n2 & H1 & H0 & ->)];
    rewrite check_overrides_passable in H1 by done; [done|].
  injection H1 as <- <- <-. rewrite Hex in H0. cbn [orb] in H0.
  minv H0;
    try match goal with
        | E : negb _ = true |- _ =>
            simpl in E; rewrite Hex in E; discriminate
        | E : negb _ && _ = true |- _ =>
            simpl in E; rewrite Hex in E; discriminate
        end;
    cbn [app];
    rewrite ?filter_app, ?filter_override_calls, ?filter_object_call,
      ?app_nil_r;
    done.
Qed.

(** C8. For a visible mesh geometry that the transform library accepts,
    whose derived name matches no override rule and whose sibling texture
    (the mesh path with its last three characters replaced by [png]) does
    not exist, the loop body returns normally, having registered a
    flat-colour material made of the geometry's own RGBA and then the
    mesh object that uses it. *)
Theorem C8_mesh_falls_back_to_flat_colour src frm robot j geom tfs s h :
  type geom = MESH →
  visible geom = true →
  accepted geom = true →
  matching (_format_geom_name src frm robot j) (material_overrides s) = [] →
  path_exists (str_drop_last3 (string_data geom) +:+ "png") = false →
  load_geom src frm robot j geom tfs s h
  = (Ok (tfs ++ [local_tf geom]), s,
     [ mkCall "register_material"
         [("name",
           PStr ("material_" +:+ _format_geom_name src frm robot j));
          ("material_type", PStr "color");
          ("color", floats (take 4 (color geom)))];
       mkCall "register_object"
         [("name", PStr ("obj_" +:+ _format_geom_name src frm robot j));
          ("type", PStr "obj");
          ("path", PStr (str_drop_last3 (string_data geom) +:+ "obj"));
          ("scale", floats (take 3 (float_data geom)));
          ("location", floats (position geom));
          ("quaternion", floats (quaternion geom));
          ("material",
           PStr ("material_" +:+ _format_geom_name src frm robot j))] ]).
Proof.
  intros Ht Hv Hacc Hm Hp.
  destruct (load_geom src frm robot j geom tfs s h) as [[r s'] n] eqn:H.
  rewrite load_geom_visible in H by done. cbv zeta in H. rewrite Ht in H.
  change (MESH =? BOX)%Z with false in H.
  change (MESH =? SPHERE)%Z with false in H.
  change (MESH =? CYLINDER)%Z with false in H.
  change (MESH =? MESH)%Z with true in H. cbv iota in H.
  apply bind_inv in H as [(e & H1 & _)|(b & s2 & n1 & n3 & H1 & H2 & ->)];
    rewrite check_overrides_passable in H1 by (by rewrite Hm); [done|].
  rewrite Hm in H1. apply matching_nil in Hm. rewrite Hm in H1.
  injection H1 as <- <- <-. cbn [orb negb andb] in H2.
  rewrite Hp in H2. by minv H2.
Qed.

(** C10. For a visible geometry of an unsupported type that the
    transform library accepts, the arguments of the matching rules not
    containing [name], the loop body returns normally with the geometry's
    local transform appended to the list being built for the link, having
    sent one [register_material] per matching override rule and no
    [register_object]; and once the loop body of its link has returned,
    the list cached under the link's name holds that transform: an entry
    for an object the renderer was never told of. *)
Theorem C10_unsupported_geometry_is_cached src frm robot j g tfs s h :
  visible g = true →
  accepted g = true →
  forallb passable
    (matching (_format_geom_name src frm robot j) (material_overrides s))
  = true →
  supported g = false →
  load_geom src frm robot j g tfs s h
  = (Ok (tfs ++ [local_tf g]), s,
     map (override_call ("material_" +:+ _format_geom_name src frm robot j))
       (matching (_format_geom_name src frm robot j) (material_overrides s)))
  ∧ names_of "register_object"
      (calls (load_geom src frm robot j g tfs s h)) = []
  ∧ ∀ link s1 h1 s2 n2,
      g ∈ geom link →
      load_link link s1 h1 = (Ok tt, s2, n2) →
      ∃ tfss cached,
        link_subgeometry_local_tfs_by_link_name s2 = Some tfss
        ∧ tfss !! name link = Some cached
        ∧ local_tf g ∈ cached.
Proof.
  intros Hv Hacc Hpass (Hb & Hs & Hc & Hm)%unsupported_type.
  assert (load_geom src frm robot j g tfs s h
          = (Ok (tfs ++ [local_tf g]), s,
             map (override_call
                    ("material_" +:+ _format_geom_name src frm robot j))
               (matching (_format_geom_name src frm robot j)
                  (material_overrides s)))) as Hrun.
  { rewrite load_geom_visible by done. cbv zeta.
    rewrite run_bind, check_overrides_passable by done.
    by rewrite Hb, Hs, Hc, Hm, run_ret, app_nil_r. }
  split; [done|]. split; [rewrite Hrun; apply names_of_overrides|].
  intros link s1 h1 s2 n2 Hin Hl.
  apply load_link_tables in Hl as (nums & tfss & _ & ->).
  eexists _, _. split; [done|]. split; [apply lookup_insert_eq|].
  apply list_elem_of_fmap. exists g. split; [done|].
  by apply list_elem_of_filter.
Qed.

End Materials.

(** ** A publish after a load *)

Section Publish.
Context `{L : PoseLib} `{O : Outside}.

Lemma publish_geom_run link_name src frm model_id P j s h tfss tfs :
  link_subgeometry_local_tfs_by_link_name s = Some tfss →
  tfss !! link_name = Some tfs →
  publish_geom link_name src frm model_id P j s h
  = match tfs !! j with
    | Some tf =>
        (Ok tt, s, [update_call src frm model_id (global_transform s) P j tf])
    | None => (Raise IndexError, s, [])
    end.
Proof.
  intros Ht Hl.
  destruct (publish_geom link_name src frm model_id P j s h)
    as [[r s'] n] eqn:H.
  unfold publish_geom in H. minv H; by simplify_eq.
Qed.

Lemma publish_geoms_run link_name src frm model_id P s tfss tfs n k i h :
  link_subgeometry_local_tfs_by_link_name s = Some tfss →
  tfss !! link_name = Some tfs →
  for_enum (λ _ j, publish_geom link_name src frm model_id P j) i (seq k n)
    s h
  = (if decide (n ≤ length (drop k tfs))%nat then Ok tt else Raise IndexError, s,
     update_calls src frm model_id (global_transform s) P k
       (take n (drop k tfs))).
Proof.
  intros Ht Hl. revert k i h. induction n as [|n IH]; intros k i h.
  - cbn [for_enum seq take update_calls]. rewrite run_ret.
    by rewrite decide_True by lia.
  - cbn [for_enum seq].
    rewrite run_bind, (publish_geom_run _ _ _ _ _ _ _ _ _ _ Ht Hl).
    destruct (tfs !! k) as [tf|] eqn:Hk.
    + rewrite (drop_S _ _ _ Hk), IH. cbn [take update_calls length app].
      destruct (decide (n ≤ length (drop (S k) tfs))%nat);
        [rewrite decide_True by lia | rewrite decide_False by lia]; done.
    + apply lookup_ge_None in Hk. rewrite drop_ge by done.
      cbn [take update_calls length]. by rewrite decide_False by lia.
Qed.

Lemma publish_frame_run entry src frm s h nums tfss n tfs :
  _parse_name (get_name entry) = Ok (src, frm) →
  num_link_geometries_by_link_name s = Some nums →
  nums !! get_name entry = Some n →
  link_subgeometry_local_tfs_by_link_name s = Some tfss →
  tfss !! get_name entry = Some tfs →
  publish_frame entry s h
  = (if decide (n ≤ length tfs)%nat then Ok tt else Raise IndexError, s,
     update_calls src frm (get_model_instance_id entry) (global_transform s)
       (get_pose entry) 0 (take n tfs)).
Proof.
  intros Hp Hn Hnl Ht Htl.
  destruct (publish_frame entry s h) as [[r s'] c] eqn:H.
  unfold publish_frame in H. rewrite Hp in H. minv H.
  unfold for_range in *.
  match goal with
  | Hf : for_enum _ _ _ _ _ = _ |- _ =>
      rewrite (publish_geoms_run _ _ _ _ _ _ _ _ _ _ _ _ Ht Htl) in Hf;
      rewrite drop_0 in Hf; injection Hf as <- <- <-
  end.
  done.
Qed.

Lemma filter_length_Forall {A} (P : A → Prop) `{!∀ x, Decision (P x)}
    (l : list A) :
  (length l ≤ length (filter P l))%nat ↔ Forall P l.
Proof.
  induction l as [|x l IH]; [by split; [constructor | simpl; lia]|].
  rewrite filter_cons. pose proof (length_filter P l) as Hle.
  destruct (decide (P x)) as [Hx|Hx]; simpl.
  - rewrite Forall_cons, <- IH. split; [intros; split; [done | lia] |].
    intros [_ ?]. lia.
  - split; [lia|]. by intros [? _]%Forall_cons.
Qed.

Lemma names_of_update_calls src frm model_id G P j tfs :
  names_of "update_parameters" (update_calls src frm model_id G P j tfs)
  = map (λ i, "obj_" +:+ _format_geom_name src frm model_id i)
      (seq j (length tfs)).
Proof.
  revert j. induction tfs as [|tf tfs IH]; intros j; [done|].
  simpl. unfold names_of in *. simpl. by rewrite IH.
Qed.

Lemma object_names_from_all src frm robot j geoms :
  Forall (λ g, visible g = true ∧ supported g = true) geoms →
  object_names_from src frm robot j geoms
  = map (λ i, "obj_" +:+ _format_geom_name src frm robot i)
      (seq j (length geoms)).
Proof.
  intros Hall. revert j. induction Hall as [|g geoms [Hv Hs] _ IH];
    intros j; [done|].
  simpl. by rewrite Hv, Hs, IH.
Qed.

End Publish.

(** ** Invisible geometries *)

(** A record whose alpha is exactly zero makes the loop body of [load]
    return at once: nothing is sent and nothing is cached. *)
Lemma load_geom_invisible `{L : PoseLib} `{O : Outside}
    src frm robot j geom tfs s h alpha :
  color geom !! 3 = Some alpha → (alpha =? 0)%float = true →
  load_geom src frm robot j geom tfs s h = (Ok tfs, s, []).
Proof.
  intros Ha Hz. unfold load_geom, py_index.
  by rewrite run_bind, Ha, run_ret, Hz, run_ret.
Qed.

(** ** The quaternion helper *)

(** On a quaternion of at least four entries the helper returns four
    entries, a rearrangement of the first four; applied three more times
    it gives the first four entries back in their order. *)
Theorem reorder_quat_rotates {A} (quat r : list A) :
  reorder_quat_wxyz_to_xyzw quat = Ok r →
  length r = 4 ∧ r ≡ₚ take 4 quat
  ∧ ∃ r1 r2,
      reorder_quat_wxyz_to_xyzw r = Ok r1
      ∧ reorder_quat_wxyz_to_xyzw r1 = Ok r2
      ∧ reorder_quat_wxyz_to_xyzw r2 = Ok (take 4 quat).
Proof.
  destruct quat as [|w [|x [|y [|z rest]]]]; try done.
  intros [= <-]. split; [done|]. split.
  - simpl. rewrite take_0. symmetry.
    change [w; x; y; z] with ([w] ++ [x; y; z]).
    change [x; y; z; w] with ([x; y; z] ++ [w]). apply Permutation_app_comm.
  - by exists [y; z; w; x], [z; w; x; y].
Qed.

(** The helper raises [IndexError] exactly on the quaternions of fewer
    than four entries; it raises nothing else. *)
Theorem reorder_quat_short {A} (quat : list A) :
  reorder_quat_wxyz_to_xyzw quat = Raise IndexError ↔ length quat < 4.
Proof.
  destruct quat as [|w [|x [|y [|z rest]]]]; simpl; split; try done; try lia.
Qed.

(** ** Names parsed and formatted *)

#[local] Arguments String.append !s1 s2 / : simpl nomatch.

Lemma str_index_occurrence (a b : string) :
  ∃ p, str_index "::" (a +:+ "::" +:+ b) = Some p ∧ (p ≤ String.length a)%nat.
Proof.
  induction a as [|c a IH].
  - exists 0. split; [|done]. apply (first_delim_nil b).
  - change (String c a +:+ "::" +:+ b) with (String c (a +:+ "::" +:+ b)).
    rewrite str_index_cons. destruct (String.prefix _ _).
    + exists 0. split; [done | simpl; lia].
    + destruct IH as (p & -> & Hp). exists (S p). split; [done | simpl; lia].
Qed.

(** A name that [_parse_name] accepts is its source name, the delimiter
    and its frame name; the source name has no delimiter, and no other
    way of cutting the name at a delimiter gives a shorter first part. *)
Theorem parse_name_splits_at_first_delimiter (n src frm : string) :
  _parse_name n = Ok (src, frm) →
  n = src +:+ "::" +:+ frm
  ∧ str_index "::" src = None
  ∧ ∀ a b, n = a +:+ "::" +:+ b → (String.length src ≤ String.length a)%nat.
Proof.
  intros H. pose proof H as [Hn Hsrc]%parse_name_ok.
  assert (∀ a b, n = a +:+ "::" +:+ b
                 → (String.length src ≤ String.length a)%nat) as Hfirst.
  { intros a b Hab. destruct (str_index_occurrence a b) as (p & Hp & Hle).
    rewrite <- Hab, Hn, (Hsrc frm) in Hp. injection Hp as <-. done. }
  split; [done|]. split; [|done].
  destruct (str_index "::" src) as [q|] eqn:Hq; [|done].
  apply str_index_delim in Hq as (a & b & Ha & Hlen & _).
  assert (n = a +:+ "::" +:+ (b +:+ "::" +:+ frm)) as Hn'
    by (by rewrite Hn, Ha, !str_app_assoc).
  apply Hfirst in Hn'. rewrite Ha, !str_app_length in Hn'.
  simpl in Hn'. lia.
Qed.

(** [_parse_name] raises [AssertionError] exactly on the names that do
    not contain the delimiter. *)
Theorem parse_name_raises_without_delimiter (n : string) :
  _parse_name n = Raise AssertionError ↔ ¬ ∃ a b, n = a +:+ "::" +:+ b.
Proof.
  unfold _parse_name. split.
  - intros H (a & b & ->).
    destruct (str_index_occurrence a b) as (p & Hp & _). by rewrite Hp in H.
  - intros Hno. destruct (str_index "::" n) as [p|] eqn:Hp; [|done].
    exfalso. apply Hno. apply str_index_delim in Hp as (src & r & -> & _).
    by exists src, r.
Qed.

(** The geometry name derived from a parsed link name determines the
    link name, the model-instance number and the index. *)
Theorem derived_name_determines_components
    (n1 n2 s1 s2 f1 f2 : string) (m1 m2 : Z) (j1 j2 : nat) :
  _parse_name n1 = Ok (s1, f1) →
  _parse_name n2 = Ok (s2, f2) →
  _format_geom_name s1 f1 m1 j1 = _format_geom_name s2 f2 m2 j2 →
  n1 = n2 ∧ m1 = m2 ∧ j1 = j2.
Proof.
  intros [-> H1]%parse_name_ok [-> H2]%parse_name_ok Heq.
  by apply format_geom_name_inj in Heq as (-> & -> & -> & ->).
Qed.

(** A derived geometry name parses again: its source name is that of the
    link, the rest is the model-instance number, the frame name and the
    index. *)
Theorem parse_of_derived_name (n src frm : string) (m : Z) (j : nat) :
  _parse_name n = Ok (src, frm) →
  _parse_name (_format_geom_name src frm m j)
  = Ok (src, str_of_int m +:+ "::" +:+ frm +:+ "::"
             +:+ str_of_int (Z.of_nat j)).
Proof.
  intros [_ Hsrc]%parse_name_ok. unfold _format_geom_name.
  by apply parse_name_first_delim.
Qed.

(** ** The image files *)

(** The decimal digits that a string of digits spells. *)
Lemma digits_zeros (k : nat) (d : Decimal.uint) :
  NilEmpty.uint_of_string (zeros k +:+ NilEmpty.string_of_uint d)
  = Some (Nat.iter k Decimal.D0 d).
Proof.
  induction k as [|k IH]; simpl.
  - apply NilEmpty.usu.
  - by rewrite IH.
Qed.

Lemma of_uint_zeros (k : nat) (d : Decimal.uint) :
  Z.of_uint (Nat.iter k Decimal.D0 d) = Z.of_uint d.
Proof. induction k as [|k IH]; [done|]. simpl. exact IH. Qed.

Lemma str_of_nat_digits (n : nat) :
  ∃ d, str_of_int (Z.of_nat n) = NilEmpty.string_of_uint d
       ∧ Z.of_uint d = Z.of_nat n.
Proof.
  unfold str_of_int.
  pose proof (DecimalZ.of_to (Z.of_nat n)) as Hrt.
  destruct (Z.of_nat n) as [|p|p] eqn:Hn;
    [by exists (Decimal.D0 Decimal.Nil)| |lia].
  exists (Pos.to_uint p). split; [|exact Hrt].
  simpl. unfold NilZero.string_of_uint.
  pose proof (DecimalPos.Unsigned.to_uint_nonnil p) as Hnil.
  by destruct (Pos.to_uint p).
Qed.

(** A zero-padded number spells its number. *)
Lemma zfill_digits (w n : nat) :
  ∃ d, NilEmpty.uint_of_string (zfill w n) = Some d
       ∧ Z.of_uint d = Z.of_nat n.
Proof.
  unfold zfill. destruct (str_of_nat_digits n) as (d & -> & Hd).
  eexists. split; [apply digits_zeros|]. by rewrite of_uint_zeros.
Qed.

Lemma zfill_inj (w w' n n' : nat) : zfill w n = zfill w' n' → n = n'.
Proof.
  intros Heq. destruct (zfill_digits w n) as (d & Hs & Hd).
  destruct (zfill_digits w' n') as (d' & Hs' & Hd').
  rewrite Heq, Hs' in Hs. injection Hs as ->. lia.
Qed.

(** Two strings of digits followed by the same character that is not a
    digit. *)
Lemma split_after_digits (c : ascii) (a a' r r' : string) :
  (∀ o, uint_of_char c o = None) →
  is_Some (NilEmpty.uint_of_string a) →
  is_Some (NilEmpty.uint_of_string a') →
  a +:+ String c r = a' +:+ String c r' → a = a' ∧ r = r'.
Proof.
  intros Hc. revert a'.
  induction a as [|x a IH]; intros [|x' a'] Ha Ha' Heq; simpl in *.
  - by injection Heq as ->.
  - injection Heq as <- _. rewrite Hc in Ha'. by destruct Ha'.
  - injection Heq as -> _. rewrite Hc in Ha. by destruct Ha.
  - injection Heq as -> Heq.
    assert (is_Some (NilEmpty.uint_of_string a)) as Hd
      by (destruct (NilEmpty.uint_of_string a); [done | by destruct Ha]).
    assert (is_Some (NilEmpty.uint_of_string a')) as Hd'
      by (destruct (NilEmpty.uint_of_string a'); [done | by destruct Ha']).
    by destruct (IH a' Hd Hd' Heq) as [-> ->].
Qed.

(** The image files never collide: the path that a render request names
    determines the camera index and the publish number, also beyond the
    two and eight digits of the padding. *)
Theorem render_paths_distinct (i i' n n' : nat) :
  render_path i n = render_path i' n' → i = i' ∧ n = n'.
Proof.
  unfold render_path. intros Heq.
  apply str_app_inj_length in Heq as [_ Heq]; [|done].
  destruct (zfill_digits 2 i) as (d1 & H1 & _).
  destruct (zfill_digits 2 i') as (d1' & H1' & _).
  apply (split_after_digits "_") in Heq as [Hi Heq];
    [|by intros [?|]|by rewrite H1|by rewrite H1'].
  destruct (zfill_digits 8 n) as (d2 & H2 & _).
  destruct (zfill_digits 8 n') as (d2' & H2' & _).
  apply (split_after_digits ".") in Heq as [Hn _];
    [|by intros [?|]|by rewrite H2|by rewrite H2'].
  split; by eapply zfill_inj.
Qed.

#[local] Arguments String.append : simpl never.

(** ** What a publish sends *)

Section Tick.
Context `{L : PoseLib} `{O : Outside}.

Lemma render_images_exact k a i s h :
  for_enum (λ _ j, render_image j) i (seq a k) s h
  = (Ok tt, s, map (λ j, render_call j (current_publish_num s)) (seq a k)).
Proof.
  revert a i h. induction k as [|k IH]; intros a i h; [done|].
  cbn [for_enum seq map]. rewrite run_bind.
  unfold render_image at 1. rewrite run_bind. cbn [get_self].
  rewrite run_bind. cbn [send_remote_call]. rewrite run_ret, IH. done.
Qed.

Lemma publish_frames_keep pose_bundle i s h r s' n :
  for_enum (λ _ entry, publish_frame entry) i pose_bundle s h = (r, s', n) →
  s' = s ∧ all_funcs ["update_parameters"] n.
Proof.
  intros H. split.
  - revert H. generalize s h r s' n.
    change (keeps (λ x, x)
              (for_enum (λ _ entry, publish_frame entry) i pose_bundle)).
    unfold publish_frame, publish_geom. repeat keeps_step.
  - revert H. generalize s h r s' n.
    change (emits (all_funcs ["update_parameters"])
              (for_enum (λ _ entry, publish_frame entry) i pose_bundle)).
    unfold publish_frame, publish_geom.
    repeat first [by apply one_call_funcs; repeat constructor | emits_step].
Qed.

(** A publish that returns has sent, in this order, the pose updates, one
    image request per camera in the order of the cameras, and the scene
    snapshot if the counter was 0; it leaves the object as it was but for
    the counter and the flag. *)
Theorem publish_sends_updates_then_renders pose_bundle s h s' n :
  _DoPublish pose_bundle s h = (Ok tt, s', n) →
  s' = published s
  ∧ ∃ ups,
      all_funcs ["update_parameters"] ups
      ∧ n = ups
            ++ render_calls (length (camera_tfs s)) (current_publish_num s)
            ++ (if (current_publish_num s =? 0)%nat then [save_call] else []).
Proof.
  intros H. unfold _DoPublish in H. minv H.
  all: repeat match goal with u : () |- _ => destruct u end.
  all: match goal with
       | Hf : for_enum (λ _ entry, publish_frame entry) _ _ _ _ = _ |- _ =>
           apply publish_frames_keep in Hf as [-> Hups]
       end.
  all: match goal with
       | Hr : for_range _ _ _ _ = _ |- _ =>
           unfold for_range in Hr; rewrite render_images_exact in Hr;
           injection Hr as <- <-
       end.
  all: unfold published; match goal with E : (_ =? 0)%nat = _ |- _ =>
         rewrite E end.
  all: split; [done|]; eexists; split; [exact Hups|].
  all: cbn [app]; by rewrite ?app_nil_r.
Qed.

(** A publish that raises has raised in the loop over the poses: it has
    sent pose updates only, no image request and no snapshot, and the
    object, counter included, is as it was. *)
Theorem failed_publish_changes_nothing pose_bundle s h e s' n :
  _DoPublish pose_bundle s h = (Raise e, s', n) →
  s' = s ∧ all_funcs ["update_parameters"] n.
Proof.
  intros H. unfold _DoPublish in H. minv H.
  all: repeat match goal with u : () |- _ => destruct u end.
  all: try match goal with
       | Hr : for_range _ _ _ _ = (Raise _, _, _) |- _ =>
           unfold for_range in Hr; rewrite render_images_exact in Hr;
           discriminate
       end.
  all: match goal with
       | Hf : for_enum (λ _ entry, publish_frame entry) _ _ _ _ = _ |- _ =>
           by apply publish_frames_keep in Hf as [-> Hups]
       end.
Qed.

(** The ways the body of the loop over the poses raises before it has
    sent anything: the tables do not exist, or have no entry for the
    name. *)
Lemma publish_frame_no_table entry s h src frm :
  _parse_name (get_name entry) = Ok (src, frm) →
  num_link_geometries_by_link_name s = None →
  publish_frame entry s h = (Raise AttributeError, s, []).
Proof.
  intros Hp Hn. unfold publish_frame.
  rewrite run_bind, Hp. cbn [lift app]. rewrite run_bind. cbn [get_self].
  rewrite run_bind, Hn. done.
Qed.

Lemma publish_frame_no_entry entry s h src frm nums :
  _parse_name (get_name entry) = Ok (src, frm) →
  num_link_geometries_by_link_name s = Some nums →
  nums !! get_name entry = None →
  publish_frame entry s h = (Raise KeyError, s, []).
Proof.
  intros Hp Hn Hk. unfold publish_frame.
  rewrite run_bind, Hp. cbn [lift app]. rewrite run_bind. cbn [get_self].
  rewrite run_bind, Hn. cbn [get_attr]. rewrite run_ret, run_bind.
  unfold dict_get. by rewrite Hk.
Qed.

(** A publish is its loop over the poses, which leaves the object as it
    was, followed, if the loop returns, by the image requests and the
    snapshot. *)
Lemma DoPublish_run pose_bundle s h :
  ∃ r ups,
    for_enum (λ _ entry, publish_frame entry) 0 pose_bundle s h = (r, s, ups)
    ∧ all_funcs ["update_parameters"] ups
    ∧ _DoPublish pose_bundle s h
      = match r with
        | Ok _ =>
            (Ok tt, published s,
             ups ++ render_calls (length (camera_tfs s))
                      (current_publish_num s)
                 ++ (if (current_publish_num s =? 0)%nat
                     then [save_call] else []))
        | Raise e => (Raise e, s, ups)
        end.
Proof.
  destruct (for_enum (λ _ entry, publish_frame entry) 0 pose_bundle s h)
    as [[r s1] ups] eqn:Hf.
  destruct (publish_frames_keep _ _ _ _ _ _ _ Hf) as [-> Hups].
  exists r, ups. split; [done|]. split; [done|].
  unfold _DoPublish. rewrite run_bind, Hf. destruct r as [[]|e]; [|done].
  rewrite run_bind. cbn [get_self]. rewrite run_bind.
  unfold for_range. rewrite render_images_exact.
  unfold published, render_calls.
  generalize (map (λ j, render_call j (current_publish_num s))
                (seq 0 (length (camera_tfs s)))) as rc.
  intros rc. rewrite run_bind. cbn [get_self]. rewrite run_bind.
  destruct (current_publish_num s =? 0)%nat eqn:E.
  all: unfold set_published_scene, set_current_publish_num.
  all: repeat (rewrite ?run_bind, ?run_ret;
               cbn [get_self set_self send_remote_call]).
  all: cbn; by rewrite ?app_nil_r.
Qed.

(** A loop whose body leaves two objects as they are and does the same on
    both does the same on both. *)
Lemma for_enum_same {A} (body : nat → A → M unit) l s s' :
  (∀ i x h h', ∃ r n, body i x s h = (r, s, n) ∧ body i x s' h' = (r, s', n)) →
  ∀ i h h', ∃ r n,
    for_enum body i l s h = (r, s, n) ∧ for_enum body i l s' h' = (r, s', n).
Proof.
  intros Hb. induction l as [|x l IH]; intros i h h'.
  - by exists (Ok tt), [].
  - cbn [for_enum]. rewrite !run_bind.
    destruct (Hb i x h h') as (r & n & -> & ->). destruct r as [[]|e].
    + destruct (IH (S i) (h ++ n) (h' ++ n)) as (r2 & n2 & -> & ->).
      by exists r2, (n ++ n2).
    + by exists (Raise e), n.
Qed.

Lemma publish_geom_same link_name src frm model_id P j s s' h h' :
  same_scene s s' →
  ∃ r n, publish_geom link_name src frm model_id P j s h = (r, s, n)
         ∧ publish_geom link_name src frm model_id P j s' h' = (r, s', n).
Proof.
  intros (HG & _ & HT). unfold publish_geom.
  rewrite !run_bind. cbn [get_self]. rewrite !run_bind, <- HT, <- HG.
  destruct (link_subgeometry_local_tfs_by_link_name s) as [tfss|];
    [|by eexists _, _]. cbn [get_attr]. rewrite !run_ret, !run_bind.
  unfold dict_get. destruct (tfss !! link_name) as [tfs|]; [|by eexists _, _].
  rewrite !run_ret, !run_bind. unfold py_index.
  destruct (tfs !! j) as [tf|]; [|by eexists _, _].
  rewrite !run_ret, !run_bind. cbn [send_remote_call]. rewrite !run_ret.
  by eexists _, _.
Qed.

Lemma publish_frame_same entry s s' h h' :
  same_scene s s' →
  ∃ r n, publish_frame entry s h = (r, s, n)
         ∧ publish_frame entry s' h' = (r, s', n).
Proof.
  intros Hs. pose proof Hs as (_ & HN & _). unfold publish_frame.
  rewrite !run_bind. cbn [lift].
  destruct (_parse_name (get_name entry)) as [[src frm]|e];
    [|by eexists _, _].
  rewrite !run_bind. cbn [get_self]. rewrite !run_bind, <- HN.
  destruct (num_link_geometries_by_link_name s) as [nums|];
    [|by eexists _, _]. cbn [get_attr]. rewrite !run_ret, !run_bind.
  unfold dict_get.
  destruct (nums !! get_name entry) as [k|]; [|by eexists _, _].
  rewrite !run_ret. unfold for_range.
  match goal with
  | |- context [for_enum ?b 0 (seq 0 k) s ?h1] =>
    match goal with
    | |- context [for_enum _ 0 (seq 0 k) s' ?h2] =>
      destruct (for_enum_same b (seq 0 k) s s'
                  (λ i x h0 h0', publish_geom_same _ _ _ _ _ x s s' h0 h0' Hs)
                  0 h1 h2) as (r & n & -> & ->)
    end
  end.
  by eexists _, _.
Qed.

Lemma published_same_scene s : same_scene s (published s).
Proof. done. Qed.

(** The pose updates of a publish depend on the pose bundle, the global
    transform and the two tables only: when a publish has returned, a
    second publish of the same bundle returns too, with the same updates
    followed by the image requests of the next publish number and no
    snapshot. *)
Theorem repeated_publish_sends_same_updates pose_bundle s h s1 n1 h' :
  _DoPublish pose_bundle s h = (Ok tt, s1, n1) →
  ∃ ups,
    all_funcs ["update_parameters"] ups
    ∧ n1 = ups ++ render_calls (length (camera_tfs s)) (current_publish_num s)
               ++ (if (current_publish_num s =? 0)%nat
                   then [save_call] else [])
    ∧ _DoPublish pose_bundle s1 h'
      = (Ok tt, published s1,
         ups ++ render_calls (length (camera_tfs s))
                  (current_publish_num s + 1)).
Proof.
  intros H.
  destruct (DoPublish_run pose_bundle s h) as (r & ups & Hf & Hups & Hp).
  rewrite Hp in H. destruct r as [[]|e]; [|done]. injection H as <- <-.
  exists ups. split; [done|]. split; [done|].
  destruct (DoPublish_run pose_bundle (published s) h')
    as (r' & ups' & Hf' & _ & ->).
  destruct (for_enum_same (λ _ entry, publish_frame entry) pose_bundle
              s (published s)
              (λ i x h0 h0',
                 publish_frame_same x s (published s) h0 h0'
                   (published_same_scene s))
              0 h h') as (r2 & n2 & H1 & H2).
  rewrite Hf in H1. rewrite Hf' in H2. simplify_eq.
  cbn [published current_publish_num camera_tfs].
  replace (current_publish_num s + 1 =? 0)%nat with false
    by (symmetry; apply Nat.eqb_neq; lia).
  by rewrite app_nil_r.
Qed.

End Tick.

(** ** What a load sends and leaves *)

Section Whole_load.
Context `{L : PoseLib} `{O : Outside}.

Lemma load_cameras_exact cams i s h :
  for_enum load_camera i cams s h
  = (Ok tt, s, cameras_calls (global_transform s) i cams).
Proof.
  revert i h. induction cams as [|c cams IH]; intros i h; [done|].
  cbn [for_enum cameras_calls]. rewrite run_bind.
  unfold load_camera at 1. rewrite run_bind. cbn [get_self].
  rewrite run_bind. cbn [send_remote_call]. rewrite run_bind.
  cbn [send_remote_call]. rewrite run_ret, IH. done.
Qed.

(** The loop body of a link, when it returns: the object has the two
    entries of the link set and is otherwise as it was. *)
Lemma load_link_exact link s h s' n nums tfss :
  num_link_geometries_by_link_name s = Some nums →
  link_subgeometry_local_tfs_by_link_name s = Some tfss →
  load_link link s h = (Ok tt, s', n) →
  s' = mkSelf (current_publish_num s) (material_overrides s)
         (global_transform s) (camera_tfs s)
         (Some (<[name link := num_geom link]> nums))
         (Some (<[name link :=
                    map local_tf
                      (filter (λ g, visible g = true) (geom link))]> tfss))
         (published_scene s).
Proof.
  intros Hn Ht H. unfold load_link in H. minv H.
  match goal with
  | Hf : fold_enum _ _ _ _ _ _ = _ |- _ =>
      apply load_geoms_run in Hf as (-> & -> & _)
  end.
  simpl in *. by simplify_eq.
Qed.

Lemma load_links_exact msg i s h s' n nums tfss :
  num_link_geometries_by_link_name s = Some nums →
  link_subgeometry_local_tfs_by_link_name s = Some tfss →
  for_enum (λ _ link, load_link link) i msg s h = (Ok tt, s', n) →
  s' = mkSelf (current_publish_num s) (material_overrides s)
         (global_transform s) (camera_tfs s)
         (Some (foldl (λ d link, <[name link := num_geom link]> d) nums msg))
         (Some (foldl (λ d link,
                         <[name link :=
                             map local_tf
                               (filter (λ g, visible g = true) (geom link))]>
                           d) tfss msg))
         (published_scene s).
Proof.
  revert i s h s' n nums tfss.
  induction msg as [|link msg IH]; intros i s h s' n nums tfss Hn Ht H.
  - injection H as <- <-. destruct s. simpl in *. by subst.
  - simpl in H.
    apply bind_inv in H as [(e & _ & [=])|(a & s1 & n1 & n2 & H1 & H2 & ->)].
    destruct a. apply (load_link_exact _ _ _ _ _ _ _ Hn Ht) in H1 as ->.
    apply (IH _ _ _ _ _ (<[name link := num_geom link]> nums)
             (<[name link :=
                  map local_tf
                    (filter (λ g, visible g = true) (geom link))]> tfss))
      in H2 as ->; done.
Qed.

Lemma emits_load_geom_registrations src frm robot j geom tfs :
  emits (all_funcs ["register_material"; "register_object"])
    (load_geom src frm robot j geom tfs).
Proof.
  intros s h r s' n H. apply load_geom_run in H as (_ & _ & _ & Hok).
  by apply geom_calls_ok_funcs in Hok.
Qed.

Lemma load_links_funcs msg i s h r s' n :
  for_enum (λ _ link, load_link link) i msg s h = (r, s', n) →
  all_funcs ["register_material"; "register_object"] n.
Proof.
  revert s h r s' n.
  change (emits (all_funcs ["register_material"; "register_object"])
            (for_enum (λ _ link, load_link link) i msg)).
  unfold load_link, set_num_link_geometries_by_link_name,
    set_link_subgeometry_local_tfs_by_link_name.
  repeat first [apply emits_load_geom_registrations | emits_step].
Qed.

(** A [load] that returns leaves the object as it was but for the two
    tables, which it has built anew. *)
Lemma load_returns_loaded msg s h s' n :
  load msg s h = (Ok tt, s', n) → s' = loaded msg s.
Proof.
  intros H. unfold load in H. minv H.
  repeat match goal with u : () |- _ => destruct u end.
  match goal with
  | Hc : for_enum load_camera _ _ _ _ = _ |- _ =>
      rewrite load_cameras_exact in Hc
  end.
  simplify_eq.
  match goal with
  | Hl : for_enum _ _ _ _ _ = _ |- _ =>
      apply (load_links_exact _ _ _ _ _ _ ∅ ∅) in Hl; [|done..]
  end.
  by subst s'.
Qed.

(** A [load] that returns has sent, in this order: [initialize_scene];
    registrations of materials and objects only; for each camera, in the
    order of the cameras, its registration as [cam_i] followed by its
    rendering configuration; and [set_environment_map].  It leaves the
    object as it was but for the two tables. *)
Theorem load_sends_scene_then_cameras msg s h s' n :
  load msg s h = (Ok tt, s', n) →
  s' = loaded msg s
  ∧ ∃ body,
      all_funcs ["register_material"; "register_object"] body
      ∧ n = [mkCall "initialize_scene" []] ++ body
            ++ cameras_calls (global_transform s) 0 (camera_tfs s)
            ++ [mkCall "set_environment_map" [("path", PStr env_map_path)]].
Proof.
  intros H. split; [by eapply load_returns_loaded|].
  unfold load in H. minv H.
  repeat match goal with u : () |- _ => destruct u end.
  match goal with
  | Hc : for_enum load_camera _ _ _ _ = _ |- _ =>
      rewrite load_cameras_exact in Hc
  end.
  simplify_eq.
  match goal with
  | Hl : for_enum _ _ _ _ _ = _ |- _ =>
      pose proof (load_links_funcs _ _ _ _ _ _ _ Hl) as Hbody;
      apply (load_links_exact _ _ _ _ _ _ ∅ ∅) in Hl; [|done..]
  end.
  subst s'. eexists. split; [exact Hbody|].
  cbn [app]. by rewrite ?app_nil_r.
Qed.

(** A [load] that raises has raised in the loop over the links: no
    camera was registered and no environment map set. *)
Theorem failed_load_registers_no_camera msg s h e s' n :
  load msg s h = (Raise e, s', n) →
  all_funcs ["initialize_scene"; "register_material"; "register_object"] n.
Proof.
  intros H. unfold load in H. minv H.
  all: repeat match goal with u : () |- _ => destruct u end.
  all: try match goal with
       | Hc : for_enum load_camera _ _ _ _ = (Raise _, _, _) |- _ =>
           rewrite load_cameras_exact in Hc; discriminate
       end.
  match goal with
  | Hl : for_enum _ _ _ _ _ = _ |- _ => apply load_links_funcs in Hl
  end.
  cbn [app]. apply Forall_cons. split; [repeat constructor|].
  eapply all_funcs_weaken; [|done].
  intros f Hf. rewrite !elem_of_cons in Hf. rewrite !elem_of_cons. tauto.
Qed.

Lemma foldl_insert_not_in {V} (f : lcmt_viewer_link_data → V) post k
    (d : gmap string V) :
  k ∉ map name post →
  foldl (λ d link, <[name link := f link]> d) d post !! k = d !! k.
Proof.
  revert d. induction post as [|l post IH]; intros d Hk; [done|].
  simpl in *. apply not_elem_of_cons in Hk as [Hne Hk].
  rewrite IH by done. by apply lookup_insert_ne.
Qed.

Lemma foldl_insert_last {V} (f : lcmt_viewer_link_data → V) pre link post
    (d : gmap string V) :
  name link ∉ map name post →
  foldl (λ d link, <[name link := f link]> d) d (pre ++ link :: post)
    !! name link
  = Some (f link).
Proof.
  intros Hk. rewrite foldl_app. simpl. rewrite foldl_insert_not_in by done.
  apply lookup_insert_eq.
Qed.

Lemma foldl_insert_dom {V} (f : lcmt_viewer_link_data → V) msg k
    (d : gmap string V) :
  is_Some (foldl (λ d link, <[name link := f link]> d) d msg !! k)
  ↔ k ∈ map name msg ∨ is_Some (d !! k).
Proof.
  revert d. induction msg as [|l msg IH]; intros d; simpl.
  - rewrite elem_of_nil. tauto.
  - rewrite IH, elem_of_cons, lookup_insert_is_Some.
    destruct (decide (name l = k)) as [->|Hne].
    + split; intros _; [by left; left | by right; left].
    + split.
      * intros [?|[?|[_ ?]]]; [by left; right | done | by right].
      * intros [[?|?]|?]; [congruence | by left | by right; right].
Qed.

(** The tables after a [load] that returns: their keys are the names of
    the links; a link that no later link shares its name with has, under
    its name, the number of its geometry records and the transforms of
    its visible geometries; a later link of the same name replaces the
    entries of an earlier one. *)
Theorem load_tables msg s h s' n :
  load msg s h = (Ok tt, s', n) →
  ∃ nums tfss,
    num_link_geometries_by_link_name s' = Some nums
    ∧ link_subgeometry_local_tfs_by_link_name s' = Some tfss
    ∧ (∀ k, is_Some (nums !! k) ↔ k ∈ map name msg)
    ∧ (∀ k, is_Some (tfss !! k) ↔ k ∈ map name msg)
    ∧ ∀ pre link post,
        msg = pre ++ link :: post → name link ∉ map name post →
        nums !! name link = Some (num_geom link)
        ∧ tfss !! name link
          = Some (map local_tf (filter (λ g, visible g = true) (geom link))).
Proof.
  intros ->%load_returns_loaded.
  exists (num_table msg), (tfs_table msg). split; [done|]. split; [done|].
  unfold num_table, tfs_table. split; [|split].
  - intros k. rewrite foldl_insert_dom, lookup_empty.
    split; [intros [?|[? [=]]]; done | by left].
  - intros k. rewrite foldl_insert_dom, lookup_empty.
    split; [intros [?|[? [=]]]; done | by left].
  - intros pre link post -> Hlast. split.
    + by apply (foldl_insert_last num_geom).
    + by apply (foldl_insert_last
                  (λ link, map local_tf
                     (filter (λ g, visible g = true) (geom link)))).
Qed.

End Whole_load.

(** ** A publish after the load *)

Section Publish_after_load.
Context `{L : PoseLib} `{O : Outside}.

(** The name of every link of a message on which [load] returns has the
    delimiter. *)
Lemma load_links_parse msg i s h s' n link :
  for_enum (λ _ link, load_link link) i msg s h = (Ok tt, s', n) →
  link ∈ msg →
  ∃ src frm, _parse_name (name link) = Ok (src, frm).
Proof.
  revert i s h n. induction msg as [|l msg IH]; intros i s h n H Hin.
  - by apply elem_of_nil in Hin.
  - simpl in H.
    apply bind_inv in H as [(e & _ & [=])|(a & s1 & n1 & n2 & H1 & H2 & ->)].
    apply elem_of_cons in Hin as [->|Hin]; [|by eapply IH].
    unfold load_link in H1.
    destruct (_parse_name (name l)) as [[src frm]|e] eqn:Hp; [by eauto|].
    by minv H1.
Qed.

Lemma load_parses msg s h s' n link :
  load msg s h = (Ok tt, s', n) →
  link ∈ msg →
  ∃ src frm, _parse_name (name link) = Ok (src, frm).
Proof.
  intros H Hin. unfold load in H. minv H.
  repeat match goal with u : () |- _ => destruct u end.
  match goal with
  | Hl : for_enum (λ _ link, load_link link) _ _ _ _ = _ |- _ =>
      by apply (load_links_parse _ _ _ _ _ _ link) in Hl
  end.
Qed.

(** After a [load] that has returned, the pose of a link that no later
    link of the message shares its name with: the loop runs over the
    number of records of the link, on the transforms of its visible
    ones. *)
Lemma publish_frame_after_load msg pre link post src frm s h s' n entry h' :
  load msg s h = (Ok tt, s', n) →
  msg = pre ++ link :: post →
  name link ∉ map name post →
  _parse_name (name link) = Ok (src, frm) →
  get_name entry = name link →
  publish_frame entry s' h'
  = (if decide (length (geom link)
                ≤ length (filter (λ g, visible g = true) (geom link)))%nat
     then Ok tt else Raise IndexError, s',
     update_calls src frm (get_model_instance_id entry) (global_transform s')
       (get_pose entry) 0
       (map local_tf (filter (λ g, visible g = true) (geom link)))).
Proof.
  intros ->%load_returns_loaded -> Hlast Hp He. rewrite <- He in Hp.
  rewrite (publish_frame_run entry src frm (loaded (pre ++ link :: post) s)
             h' (num_table (pre ++ link :: post))
             (tfs_table (pre ++ link :: post)) (num_geom link)
             (map local_tf (filter (λ g, visible g = true) (geom link)))
             Hp eq_refl).
  - unfold num_geom. rewrite length_map, take_ge; [done|].
    rewrite length_map. apply length_filter.
  - rewrite He. by apply (foldl_insert_last num_geom).
  - done.
  - rewrite He.
    by apply (foldl_insert_last
                (λ link, map local_tf
                   (filter (λ g, visible g = true) (geom link)))).
Qed.

(** After a [load] that has returned, a publish of a pose for a link
    that no later link of the message shares its name with sends one
    update for each visible geometry of the link, the j-th with index j
    and the transform cached for the j-th visible geometry, and then
    raises [IndexError] unless every record of the link is visible. *)
Theorem publish_after_load_link
    msg pre link post src frm s h s' n entry h' :
  load msg s h = (Ok tt, s', n) →
  msg = pre ++ link :: post →
  name link ∉ map name post →
  _parse_name (name link) = Ok (src, frm) →
  get_name entry = name link →
  calls (publish_frame entry s' h')
  = update_calls src frm (get_model_instance_id entry) (global_transform s')
      (get_pose entry) 0
      (map local_tf (filter (λ g, visible g = true) (geom link)))
  ∧ (Forall (λ g, visible g = true) (geom link) →
     outcome (publish_frame entry s' h') = Ok tt)
  ∧ (¬ Forall (λ g, visible g = true) (geom link) →
     outcome (publish_frame entry s' h') = Raise IndexError).
Proof.
  intros Hl Hmsg Hlast Hp He.
  rewrite (publish_frame_after_load _ _ _ _ _ _ _ _ _ _ _ h'
             Hl Hmsg Hlast Hp He).
  unfold calls, outcome. simpl. split; [done|]. split.
  - intros Hall. rewrite <- filter_length_Forall in Hall.
    by rewrite decide_True.
  - intros Hall. rewrite decide_False; [done|].
    by rewrite filter_length_Forall.
Qed.

(** After a [load] that has returned, for a link that no later link of
    the message shares its name with and whose records are all visible
    and of a supported type, and a pose with the link's name and
    model-instance number: the publish returns, and its updates address
    exactly the objects that the load registered for the link, in the
    order of their registration. *)
Theorem updates_match_registrations msg pre link post s h s' n entry h' :
  load msg s h = (Ok tt, s', n) →
  msg = pre ++ link :: post →
  name link ∉ map name post →
  Forall (λ g, visible g = true ∧ supported g = true) (geom link) →
  get_name entry = name link →
  get_model_instance_id entry = robot_num link →
  names_of "register_object" n
  = load_object_names pre
    ++ names_of "update_parameters" (calls (publish_frame entry s' h'))
    ++ load_object_names post
  ∧ outcome (publish_frame entry s' h') = Ok tt.
Proof.
  intros Hl Hmsg Hlast Hall He Hm.
  assert (Forall (λ g, visible g = true) (geom link)) as Hvis
    by (eapply Forall_impl; [exact Hall | by intros g [? _]]).
  assert (filter (λ g, visible g = true) (geom link) = geom link) as Hf.
  { clear -Hvis. induction Hvis as [|g geoms Hg _ IH]; [done|].
    by rewrite filter_cons, decide_True, IH. }
  rewrite (load_names _ _ _ _ _ Hl), Hmsg.
  unfold load_object_names. rewrite flat_map_app. cbn [flat_map].
  unfold link_object_names at 2.
  destruct (_parse_name (name link)) as [[src frm]|e] eqn:Hp.
  - rewrite (publish_frame_after_load _ _ _ _ _ _ _ _ _ _ _ h'
               Hl Hmsg Hlast Hp He).
    unfold calls, outcome. simpl. rewrite Hf. split.
    + rewrite names_of_update_calls, object_names_from_all by done.
      by rewrite length_map, Hm.
    + by rewrite decide_True.
  - destruct (load_parses _ _ _ _ _ link Hl) as (src & frm & Hp').
    + subst msg. rewrite elem_of_app, elem_of_cons. by right; left.
    + by rewrite Hp in Hp'.
Qed.

End Publish_after_load.

(** ** Publishes that come too early *)

Section Early.
Context `{L : PoseLib} `{O : Outside}.

(** A publish on an object that [load] has not run on: the tables do not
    exist yet, and the first pose of the bundle raises [AttributeError]
    before anything is sent. *)
Theorem publish_before_load_raises entry rest cams ovs G h src frm :
  _parse_name (get_name entry) = Ok (src, frm) →
  _DoPublish (entry :: rest) (init cams ovs G) h
  = (Raise AttributeError, init cams ovs G, []).
Proof.
  intros Hp. unfold _DoPublish. rewrite run_bind. cbn [for_enum].
  rewrite run_bind.
  by rewrite (publish_frame_no_table entry (init cams ovs G) h src frm Hp).
Qed.

(** After a [load] that has returned, a publish whose first pose names a
    link that the load message did not contain raises [KeyError] before
    anything is sent, and leaves the object as it was. *)
Theorem publish_unknown_link_raises msg s h s' n entry rest h' src frm :
  load msg s h = (Ok tt, s', n) →
  _parse_name (get_name entry) = Ok (src, frm) →
  get_name entry ∉ map name msg →
  _DoPublish (entry :: rest) s' h' = (Raise KeyError, s', []).
Proof.
  intros ->%load_returns_loaded Hp Hk.
  unfold _DoPublish. rewrite run_bind. cbn [for_enum]. rewrite run_bind.
  rewrite (publish_frame_no_entry entry (loaded msg s) h' src frm
             (num_table msg) Hp eq_refl); [done|].
  apply eq_None_not_Some. unfold num_table.
  rewrite foldl_insert_dom, lookup_empty. by intros [?|[? [=]]].
Qed.

End Early.

(** ** The records that [load] accepts *)

Section Records.
Context `{L : PoseLib} `{O : Outside}.

Ltac run_steps :=
  repeat (rewrite ?run_bind, ?run_ret;
          cbn [send_remote_call get_self assert_ raise negb andb]).

(** With a wrong number of float data the assertion fails once the
    transform has been built and the override rules have been walked:
    for a record that the transform library accepts, the arguments of
    the matching rules not containing [name], the materials of the
    matching rules are registered, the object is not, and
    [AssertionError] is raised. *)
Theorem wrong_float_count_raises src frm robot j g tfs s h :
  visible g = true →
  accepted g = true →
  forallb passable
    (matching (_format_geom_name src frm robot j) (material_overrides s))
  = true →
  float_count_ok g = false →
  load_geom src frm robot j g tfs s h
  = (Raise AssertionError, s,
     map (override_call ("material_" +:+ _format_geom_name src frm robot j))
       (matching (_format_geom_name src frm robot j) (material_overrides s))).
Proof.
  intros Hv Hacc Hpass Hc. rewrite load_geom_visible by done. cbv zeta.
  rewrite run_bind, check_overrides_passable by done.
  unfold float_count_ok in Hc.
  destruct (type g =? BOX)%Z; [|destruct (type g =? SPHERE)%Z;
    [|destruct (type g =? CYLINDER)%Z; [|done]]].
  all: rewrite run_bind, Hc; cbn [assert_ raise]; by rewrite app_nil_r.
Qed.

(** A mesh that the transform library accepts, with no matching override
    rule, whose texture file exists: the texture material is registered,
    and the flat-colour material is registered after it exactly when the
    server's reply to the texture registration is falsy; the object
    follows. *)
Theorem mesh_texture_reply_decides_colour src frm robot j g tfs s h :
  type g = MESH →
  visible g = true →
  accepted g = true →
  matching (_format_geom_name src frm robot j) (material_overrides s) = [] →
  path_exists (str_drop_last3 (string_data g) +:+ "png") = true →
  let geom_name := _format_geom_name src frm robot j in
  let material_key := "material_" +:+ geom_name in
  let texture :=
    texture_call material_key (str_drop_last3 (string_data g) +:+ "png") in
  load_geom src frm robot j g tfs s h
  = (Ok (tfs ++ [local_tf g]), s,
     texture
     :: (if reply h texture then [] else [colour_call material_key g])
     ++ [mesh_call g geom_name material_key]).
Proof.
  intros Ht Hv Hacc Hm Hp. cbv zeta. rewrite load_geom_visible by done.
  cbv zeta.
  rewrite run_bind, check_overrides_passable by (by rewrite Hm).
  rewrite Hm, Ht. apply matching_nil in Hm. rewrite Hm.
  change (MESH =? BOX)%Z with false. change (MESH =? SPHERE)%Z with false.
  change (MESH =? CYLINDER)%Z with false. change (MESH =? MESH)%Z with true.
  cbn [orb negb andb map]. rewrite Hp. rewrite !app_nil_r.
  unfold finish_geom, do_load_geom_mesh, texture_call, colour_call,
    mesh_call, local_tf.
  rewrite run_bind. cbn [send_remote_call].
  destruct (reply h _); run_steps; done.
Qed.

(** The loop body leaves the object as it is and returns exactly on the
    records that [record_ok] accepts. *)
Lemma load_geom_outcome src frm robot j g tfs s h :
  ∃ r n, load_geom src frm robot j g tfs s h = (r, s, n)
         ∧ is_ok r
           = record_ok (material_overrides s)
               (_format_geom_name src frm robot j) g.
Proof.
  unfold record_ok.
  destruct (color g !! 3) as [alpha|] eqn:Ha; [|].
  2:{ unfold load_geom, py_index. rewrite run_bind, Ha. by eexists _, _. }
  destruct (alpha =? 0)%float eqn:Hz.
  { rewrite (load_geom_invisible _ _ _ _ _ _ _ _ _ Ha Hz). by eexists _, _. }
  assert (visible g = true) as Hv by (unfold visible; by rewrite Ha, Hz).
  destruct (accepted g) eqn:Hacc.
  2:{ unfold accepted in Hacc.
      destruct (rejects (quaternion g) (position g)) as [e|] eqn:He; [|done].
      rewrite (load_geom_rejected _ _ _ _ _ _ _ _ e Hv He).
      by eexists _, _. }
  rewrite load_geom_visible by done. cbv zeta.
  rewrite run_bind, check_overrides_run.
  destruct (forallb passable _) eqn:Hpass; [|by eexists _, _].
  rewrite passed_all by done. unfold float_count_ok.
  generalize (false
              || existsb (λ o, re_match o (_format_geom_name src frm robot j))
                   (material_overrides s)) as b.
  generalize (map (override_call
                     ("material_" +:+ _format_geom_name src frm robot j))
                (matching (_format_geom_name src frm robot j)
                   (material_overrides s))) as ovs.
  intros ovs b. unfold num_float_data. clear Hpass.
  destruct (type g =? BOX)%Z; [|destruct (type g =? SPHERE)%Z;
    [|destruct (type g =? CYLINDER)%Z; [|destruct (type g =? MESH)%Z]]].
  - unfold finish_geom, do_load_geom_box.
    destruct (length (float_data g) =? 3)%nat;
      destruct b; run_steps; by eexists _, _.
  - unfold finish_geom, do_load_geom_sphere, py_index.
    destruct (float_data g) as [|x [|]];
      destruct b; run_steps; by eexists _, _.
  - unfold finish_geom, do_load_geom_cylinder, py_index.
    destruct (float_data g) as [|x [|y [|]]];
      destruct b; run_steps; by eexists _, _.
  - unfold finish_geom, do_load_geom_mesh.
    destruct b, (path_exists _); run_steps;
      repeat match goal with
      | |- context [reply ?a ?c] => destruct (reply a c)
      end; run_steps; by eexists _, _.
  - run_steps. by eexists _, _.
Qed.

Lemma load_geoms_outcome src frm robot geoms j tfs s h :
  ∃ r n, fold_enum (load_geom src frm robot) j geoms tfs s h = (r, s, n)
         ∧ is_ok r
           = records_ok (material_overrides s) src frm robot j geoms.
Proof.
  revert j tfs h. induction geoms as [|g geoms IH]; intros j tfs h.
  - by eexists _, _.
  - cbn [fold_enum records_ok]. rewrite run_bind.
    destruct (load_geom_outcome src frm robot j g tfs s h)
      as (r & n & -> & <-).
    destruct r as [tfs'|e].
    + destruct (IH (S j) tfs' (h ++ n)) as (r2 & n2 & -> & <-).
      by eexists _, _.
    + by eexists _, _.
Qed.

(** Once the two tables exist the loop body of a link returns exactly
    when the link is well formed; the tables still exist then, and the
    rules are those it found. *)
Lemma load_link_outcome link s h :
  is_Some (num_link_geometries_by_link_name s) →
  is_Some (link_subgeometry_local_tfs_by_link_name s) →
  ∃ r s' n, load_link link s h = (r, s', n)
    ∧ is_ok r = link_ok (material_overrides s) link
    ∧ is_Some (num_link_geometries_by_link_name s')
    ∧ is_Some (link_subgeometry_local_tfs_by_link_name s')
    ∧ material_overrides s' = material_overrides s.
Proof.
  intros [nums Hn] [tfss Ht]. unfold load_link, link_ok.
  rewrite run_bind. cbn [lift].
  destruct (_parse_name (name link)) as [[src frm]|e]; [|by eexists _, _, _].
  unfold set_num_link_geometries_by_link_name,
    set_link_subgeometry_local_tfs_by_link_name.
  rewrite run_bind. cbn [get_self]. rewrite run_bind, Hn. cbn [get_attr].
  rewrite run_ret, run_bind, run_bind. cbn [get_self set_self].
  rewrite run_bind.
  match goal with
  | |- context [fold_enum ?f 0 ?l [] ?s1 ?h1] =>
      destruct (load_geoms_outcome src frm (robot_num link) l 0 [] s1 h1)
        as (r & n & -> & Hr)
  end.
  cbn [material_overrides] in Hr. rewrite <- Hr.
  destruct r as [tfs|e]; [|by eexists _, _, _].
  rewrite run_bind. cbn [get_self link_subgeometry_local_tfs_by_link_name].
  rewrite run_bind, Ht. cbn [get_attr]. rewrite run_ret, run_bind.
  cbn [get_self set_self]. by eexists _, _, _.
Qed.

Lemma load_links_outcome msg i s h :
  is_Some (num_link_geometries_by_link_name s) →
  is_Some (link_subgeometry_local_tfs_by_link_name s) →
  ∃ r s' n, for_enum (λ _ link, load_link link) i msg s h = (r, s', n)
    ∧ is_ok r = forallb (link_ok (material_overrides s)) msg.
Proof.
  revert i s h. induction msg as [|link msg IH]; intros i s h Hn Ht.
  - by eexists _, _, _.
  - cbn [for_enum forallb]. rewrite run_bind.
    destruct (load_link_outcome link s h Hn Ht)
      as (r & s1 & n & -> & <- & Hn1 & Ht1 & Hov).
    destruct r as [[]|e]; [|by eexists _, _, _].
    destruct (IH (S i) s1 (h ++ n) Hn1 Ht1) as (r2 & s2 & n2 & -> & Hr).
    rewrite Hov in Hr. rewrite <- Hr. by eexists _, _, _.
Qed.

(** [load] returns exactly on the well-formed messages: every link name
    contains the delimiter, every colour has an alpha component, and for
    every record of nonzero alpha the transform library accepts the
    quaternion and the position, the arguments of the override rules
    that match its derived name do not contain [name], and a box, a
    sphere and a cylinder carry 3, 1 and 2 float data.  Neither the
    replies of the server nor the files on disk decide whether it
    returns. *)
Theorem load_returns_iff_well_formed msg s h :
  outcome (load msg s h) = Ok tt
  ↔ forallb (link_ok (material_overrides s)) msg = true.
Proof.
  unfold load, set_num_link_geometries_by_link_name,
    set_link_subgeometry_local_tfs_by_link_name.
  rewrite run_bind. cbn [send_remote_call].
  rewrite run_bind, run_bind. cbn [get_self set_self].
  rewrite run_bind, run_bind. cbn [get_self set_self]. rewrite run_bind.
  match goal with
  | |- context [for_enum _ 0 msg ?s1 ?h1] =>
      destruct (load_links_outcome msg 0 s1 h1) as (r & s2 & n & -> & Hr);
        [done..|]
  end.
  cbn [material_overrides] in Hr. rewrite <- Hr.
  destruct r as [[]|e]; [|done].
  rewrite run_bind. cbn [get_self]. rewrite run_bind, load_cameras_exact.
  rewrite run_bind. cbn [send_remote_call]. rewrite run_ret. done.
Qed.

End Records.

(** * The methods run on concrete scenes *)

Import FloatLib Scenes MoreScenes.

(** C1. A link whose first record is collision-only and whose second is a
    visible box: [load] registers the box as [obj_s::0::f::1], and the
    first publish addresses [obj_s::0::f::0], which was never registered,
    and then raises [IndexError], the loop running over the two records
    while one transform is cached. *)
Theorem C1_update_addresses_unregistered_object :
  let r := session hidden_then_box [[pose "s::f" 0 identity]] camera0 [] in
  names_of "register_object" (calls r) = ["obj_s::0::f::1"]
  ∧ names_of "update_parameters" (calls r) = ["obj_s::0::f::0"]
  ∧ outcome r = Raise IndexError.
Proof. vm_compute. done. Qed.

(** C2. Records with alpha zero send nothing at load time, whatever the
    libraries; but the per-link tables are keyed by the link name alone,
    so when a body whose only geometry is collision-only shares its name
    with a body of another model instance, a publish of its pose sends an
    [update_parameters] for its never registered object. *)
Theorem C2_invisible_body_still_updated :
  (∀ (L : PoseLib) (O : Outside) src frm robot j geom tfs s h alpha,
     color geom !! 3 = Some alpha → (alpha =? 0)%float = true →
     load_geom src frm robot j geom tfs s h = (Ok tfs, s, []))
  ∧ let r := session same_name_bodies [[pose "plant::base" 0 identity]]
               camera0 [] in
    names_of "register_object" (calls r) = ["obj_plant::1::base::0"]
    ∧ names_of "update_parameters" (calls r) = ["obj_plant::0::base::0"]
    ∧ outcome r = Ok tt.
Proof.
  split.
  - intros L' O' *. apply load_geom_invisible.
  - vm_compute. done.
Qed.

(** C3, counterexample. After a collision-only record the visible box is
    registered with index 1, its position among the records, not with
    index 0, its rank among the visible geometries. *)
Lemma C3_index_is_not_visible_rank :
  names_of "register_object" (calls (load hidden_then_box camera0 []))
  = ["obj_s::0::f::1"]
  ∧ load_object_names_ranked hidden_then_box = ["obj_s::0::f::0"]
  ∧ names_of "register_object" (calls (load hidden_then_box camera0 []))
    ≠ load_object_names_ranked hidden_then_box.
Proof. vm_compute. done. Qed.

Lemma C3_witness :
  "obj_s::0::f::1"
    ∈ names_of "register_object" (calls (load hidden_then_box camera0 []))
  ↔ ∃ link src frm j g,
      link ∈ hidden_then_box ∧ _parse_name (name link) = Ok (src, frm)
      ∧ geom link !! j = Some g ∧ visible g = true ∧ supported g = true
      ∧ "obj_s::0::f::1"
        = "obj_" +:+ _format_geom_name src frm (robot_num link) j.
Proof.
  apply (C3_index_is_record_position hidden_then_box camera0 []
           (after (load hidden_then_box camera0 []))).
  vm_compute. reflexivity.
Defined.

(** C4, counterexample. With the rules [(".*box.*", M1); (".*", M2)] the
    geometry of the link [s::foo_box_1] has its material registered
    twice, with [M1] and then with [M2]: not once with the arguments of
    the first matching rule. *)
Lemma C4_both_matching_rules_register :
  let key := "material_s::0::foo_box_1::0" in
  let n := calls (load foo_box camera_with_rules []) in
  filter (λ c, is_call "register_material" c = true) n
  = [override_call key rule_box; override_call key rule_any]
  ∧ filter (λ c, is_call "register_material" c = true) n
    ≠ [override_call key rule_box].
Proof. vm_compute. done. Qed.

Lemma C4_witness :
  filter (λ c, is_call "register_material" c = true)
    (calls (load_geom "s" "foo_box_1" 0 0 (box [0; 0; 0]%float 1) []
              camera_with_rules []))
  = map (override_call
           ("material_" +:+ _format_geom_name "s" "foo_box_1" 0 0))
      (matching (_format_geom_name "s" "foo_box_1" 0 0)
         (material_overrides camera_with_rules)).
Proof.
  apply (C4_every_matching_rule_registers "s" "foo_box_1" 0 0
           (box [0; 0; 0]%float 1) [] camera_with_rules []
           (outcome (load_geom "s" "foo_box_1" 0 0 (box [0; 0; 0]%float 1)
                       [] camera_with_rules []))
           (after (load_geom "s" "foo_box_1" 0 0 (box [0; 0; 0]%float 1)
                     [] camera_with_rules []))).
  - vm_compute. reflexivity.
  - vm_compute. reflexivity.
  - vm_compute. reflexivity.
  - vm_compute. reflexivity.
  - vm_compute. discriminate.
Defined.

(** C5. The scenario of the claim holds: one visible box at the local
    identity, the body at [translate(1,0,0)], the identity as global
    transform give one update at [(1,0,0)] with the identity quaternion.
    But after a collision-only record the update addressed to
    [obj_s::0::f::1], the box registered at the local position
    [(1,0,0)], carries the position [(2,0,0)] of the next box, each name
    being paired with the transform cached one slot further. *)
Theorem C5_update_carries_next_geometry_pose :
  updates (calls (session one_box [[pose "s::f" 0 (translate 1 0 0)]]
                    camera0 []))
  = [mkCall "update_parameters"
       [("name", PStr "obj_s::0::f::0");
        ("location", floats [1; 0; 0]%float);
        ("rotation_mode", PStr "QUATERNION");
        ("rotation_quaternion", floats [1; 0; 0; 0]%float)]]
  ∧ let r := session hidden_then_two_boxes [[pose "s::f" 0 identity]]
               camera0 [] in
    names_of "register_object" (calls r)
    = ["obj_s::0::f::1"; "obj_s::0::f::2"]
    ∧ translation
        (dot identity (dot identity (local_tf (box [1; 0; 0]%float 1))))
      = [1; 0; 0]%float
    ∧ updates (calls r)
      = [mkCall "update_parameters"
           [("name", PStr "obj_s::0::f::0");
            ("location", floats [1; 0; 0]%float);
            ("rotation_mode", PStr "QUATERNION");
            ("rotation_quaternion", floats [1; 0; 0; 0]%float)];
         mkCall "update_parameters"
           [("name", PStr "obj_s::0::f::1");
            ("location", floats [2; 0; 0]%float);
            ("rotation_mode", PStr "QUATERNION");
            ("rotation_quaternion", floats [1; 0; 0; 0]%float)]]
    ∧ outcome r = Raise IndexError.
Proof. vm_compute. done. Qed.

Lemma C7_witness :
  saves (calls (session one_box
                  [[pose "s::f" 0 identity]; [pose "s::f" 0 identity]]
                  camera0 []))
  = 1.
Proof.
  pose (r := session one_box
               [[pose "s::f" 0 identity]; [pose "s::f" 0 identity]]
               camera0 []).
  apply (C7_scene_saved_once one_box
           [[pose "s::f" 0 identity]; [pose "s::f" 0 identity]]
           camera0 [] (after r) (calls r)).
  - reflexivity.
  - simpl. lia.
  - vm_compute. reflexivity.
Defined.

Lemma C8_witness :
  load_geom "s" "f" 0 0 mesh [] camera0 []
  = (Ok [local_tf mesh], camera0,
     [ mkCall "register_material"
         [("name", PStr ("material_" +:+ _format_geom_name "s" "f" 0 0));
          ("material_type", PStr "color");
          ("color", floats (take 4 (color mesh)))];
       mkCall "register_object"
         [("name", PStr ("obj_" +:+ _format_geom_name "s" "f" 0 0));
          ("type", PStr "obj");
          ("path", PStr (str_drop_last3 (string_data mesh) +:+ "obj"));
          ("scale", floats (take 3 (float_data mesh)));
          ("location", floats (position mesh));
          ("quaternion", floats (quaternion mesh));
          ("material",
           PStr ("material_" +:+ _format_geom_name "s" "f" 0 0))] ]).
Proof.
  apply (C8_mesh_falls_back_to_flat_colour "s" "f" 0 0 mesh [] camera0 []).
  - reflexivity.
  - vm_compute. reflexivity.
  - vm_compute. reflexivity.
  - reflexivity.
  - reflexivity.
Defined.

(** C9, counterexample. A load message whose two links have the same
    name and the same model-instance number registers the same object
    name twice. *)
Lemma C9_twin_links_collide :
  names_of "register_object" (calls (load twins camera0 []))
  = ["obj_s::0::f::0"; "obj_s::0::f::0"]
  ∧ ¬ NoDup (names_of "register_object" (calls (load twins camera0 []))).
Proof.
  assert (names_of "register_object" (calls (load twins camera0 []))
          = ["obj_s::0::f::0"; "obj_s::0::f::0"]) as Hn
    by (vm_compute; reflexivity).
  split; [done|]. rewrite Hn. intros [Hnotin _]%NoDup_cons.
  apply Hnotin. by left.
Qed.

Lemma C9_witness :
  NoDup (names_of "register_object" (calls (load two_instances camera0 [])))
  ∧ ∀ link1 link2 src1 src2 frm j1 j2,
      _parse_name (name link1) = Ok (src1, frm) →
      _parse_name (name link2) = Ok (src2, frm) →
      src1 ≠ src2 ∨ robot_num link1 ≠ robot_num link2 →
      _format_geom_name src1 frm (robot_num link1) j1
      ≠ _format_geom_name src2 frm (robot_num link2) j2.
Proof.
  apply (C9_names_distinct two_instances camera0 []
           (after (load two_instances camera0 []))
           (calls (load two_instances camera0 []))).
  - apply run_as. vm_compute. reflexivity.
  - simpl. apply NoDup_cons. split; [|apply NoDup_singleton].
    intros [=]%list_elem_of_singleton.
Defined.

Lemma C10_witness :
  load_geom "s" "f" 0 0 capsule [] camera_with_rules []
  = (Ok [local_tf capsule], camera_with_rules,
     map (override_call ("material_" +:+ _format_geom_name "s" "f" 0 0))
       (matching (_format_geom_name "s" "f" 0 0)
          (material_overrides camera_with_rules)))
  ∧ names_of "register_object"
      (calls (load_geom "s" "f" 0 0 capsule [] camera_with_rules [])) = []
  ∧ ∀ link s1 h1 s2 n2,
      capsule ∈ geom link →
      load_link link s1 h1 = (Ok tt, s2, n2) →
      ∃ tfss cached,
        link_subgeometry_local_tfs_by_link_name s2 = Some tfss
        ∧ tfss !! name link = Some cached
        ∧ local_tf capsule ∈ cached.
Proof.
  apply (C10_unsupported_geometry_is_cached "s" "f" 0 0 capsule []
           camera_with_rules []).
  - vm_compute. reflexivity.
  - vm_compute. reflexivity.
  - vm_compute. reflexivity.
  - reflexivity.
Defined.

Lemma publish_after_load_link_witness :
  let link := mkLink "s::f" 0 [box [0; 0; 0]%float 0; box [1; 0; 0]%float 1] in
  let s' := after (load hidden_then_box camera0 []) in
  let r := publish_frame (pose "s::f" 0 identity) s' [] in
  calls r
  = update_calls "s" "f" 0 (global_transform s') identity 0
      (map local_tf (filter (λ g, visible g = true) (geom link)))
  ∧ (Forall (λ g, visible g = true) (geom link) → outcome r = Ok tt)
  ∧ (¬ Forall (λ g, visible g = true) (geom link) →
     outcome r = Raise IndexError).
Proof.
  apply (publish_after_load_link hidden_then_box []
           (mkLink "s::f" 0 [box [0; 0; 0]%float 0; box [1; 0; 0]%float 1])
           [] "s" "f" camera0 []
           (after (load hidden_then_box camera0 []))
           (calls (load hidden_then_box camera0 []))
           (pose "s::f" 0 identity) []).
  - apply run_as. vm_compute. reflexivity.
  - reflexivity.
  - simpl. apply not_elem_of_nil.
  - reflexivity.
  - reflexivity.
Defined.

Lemma updates_match_registrations_witness :
  let s' := after (load two_instances camera0 []) in
  let r := publish_frame (pose "plant::base" 1 identity) s' [] in
  names_of "register_object" (calls (load two_instances camera0 []))
  = load_object_names [mkLink "plant::base" 0 [box [0; 0; 0]%float 1]]
    ++ names_of "update_parameters" (calls r)
    ++ load_object_names []
  ∧ outcome r = Ok tt.
Proof.
  apply (updates_match_registrations two_instances
           [mkLink "plant::base" 0 [box [0; 0; 0]%float 1]]
           (mkLink "plant::base" 1 [box [1; 0; 0]%float 1]) []
           camera0 []
           (after (load two_instances camera0 []))
           (calls (load two_instances camera0 []))
           (pose "plant::base" 1 identity) []).
  - apply run_as. vm_compute. reflexivity.
  - reflexivity.
  - simpl. apply not_elem_of_nil.
  - repeat constructor.
  - reflexivity.
  - reflexivity.
Defined.

(** ** More runs on concrete scenes *)

Lemma reorder_quat_rotates_witness :
  length [2; 3; 4; 1]%Z = 4 ∧ [2; 3; 4; 1]%Z ≡ₚ take 4 [1; 2; 3; 4]%Z
  ∧ ∃ r1 r2,
      reorder_quat_wxyz_to_xyzw [2; 3; 4; 1]%Z = Ok r1
      ∧ reorder_quat_wxyz_to_xyzw r1 = Ok r2
      ∧ reorder_quat_wxyz_to_xyzw r2 = Ok (take 4 [1; 2; 3; 4]%Z).
Proof.
  apply (reorder_quat_rotates [1; 2; 3; 4]%Z [2; 3; 4; 1]%Z). reflexivity.
Defined.

Lemma parse_name_splits_at_first_delimiter_witness :
  "a::b::c" = "a" +:+ "::" +:+ "b::c"
  ∧ str_index "::" "a" = None
  ∧ ∀ a b, "a::b::c" = a +:+ "::" +:+ b
           → (String.length "a" ≤ String.length a)%nat.
Proof.
  apply (parse_name_splits_at_first_delimiter "a::b::c" "a" "b::c").
  reflexivity.
Defined.

Lemma derived_name_determines_components_witness :
  "s::f" = "s::f" ∧ 0%Z = 0%Z ∧ 1 = 1.
Proof.
  apply (derived_name_determines_components "s::f" "s::f" "s" "s" "f" "f"
           0 0 1 1); reflexivity.
Defined.

Lemma parse_of_derived_name_witness :
  _parse_name (_format_geom_name "s" "f" 0 1)
  = Ok ("s", str_of_int 0 +:+ "::" +:+ "f" +:+ "::"
             +:+ str_of_int (Z.of_nat 1)).
Proof.
  apply (parse_of_derived_name "s::f" "s" "f" 0 1). reflexivity.
Defined.

Lemma render_paths_distinct_witness : 1 = 1 ∧ 2 = 2.
Proof. apply (render_paths_distinct 1 1 2 2). reflexivity. Defined.

Lemma publish_sends_updates_then_renders_witness :
  let s := after (load one_box camera0 []) in
  let r := _DoPublish [pose "s::f" 0 identity] s [] in
  after r = published s
  ∧ ∃ ups,
      all_funcs ["update_parameters"] ups
      ∧ calls r
        = ups
          ++ render_calls (length (camera_tfs s)) (current_publish_num s)
          ++ (if (current_publish_num s =? 0)%nat then [save_call] else []).
Proof.
  apply (publish_sends_updates_then_renders [pose "s::f" 0 identity]
           (after (load one_box camera0 [])) []
           (after (_DoPublish [pose "s::f" 0 identity]
                     (after (load one_box camera0 [])) []))
           (calls (_DoPublish [pose "s::f" 0 identity]
                     (after (load one_box camera0 [])) []))).
  apply run_as. vm_compute. reflexivity.
Defined.

Lemma failed_publish_changes_nothing_witness :
  let s := after (load hidden_then_box camera0 []) in
  let r := _DoPublish [pose "s::f" 0 identity] s [] in
  after r = s ∧ all_funcs ["update_parameters"] (calls r).
Proof.
  apply (failed_publish_changes_nothing [pose "s::f" 0 identity]
           (after (load hidden_then_box camera0 [])) [] IndexError
           (after (_DoPublish [pose "s::f" 0 identity]
                     (after (load hidden_then_box camera0 [])) []))
           (calls (_DoPublish [pose "s::f" 0 identity]
                     (after (load hidden_then_box camera0 [])) []))).
  apply run_as. vm_compute. reflexivity.
Defined.

Lemma repeated_publish_sends_same_updates_witness :
  let s := after (load one_box camera0 []) in
  let r := _DoPublish [pose "s::f" 0 identity] s [] in
  ∃ ups,
    all_funcs ["update_parameters"] ups
    ∧ calls r
      = ups ++ render_calls (length (camera_tfs s)) (current_publish_num s)
            ++ (if (current_publish_num s =? 0)%nat then [save_call] else [])
    ∧ _DoPublish [pose "s::f" 0 identity] (after r) (calls r)
      = (Ok tt, published (after r),
         ups ++ render_calls (length (camera_tfs s))
                  (current_publish_num s + 1)).
Proof.
  apply (repeated_publish_sends_same_updates [pose "s::f" 0 identity]
           (after (load one_box camera0 [])) []
           (after (_DoPublish [pose "s::f" 0 identity]
                     (after (load one_box camera0 [])) []))
           (calls (_DoPublish [pose "s::f" 0 identity]
                     (after (load one_box camera0 [])) []))
           (calls (_DoPublish [pose "s::f" 0 identity]
                     (after (load one_box camera0 [])) []))).
  apply run_as. vm_compute. reflexivity.
Defined.

Lemma load_sends_scene_then_cameras_witness :
  let r := load one_box camera0 [] in
  after r = loaded one_box camera0
  ∧ ∃ body,
      all_funcs ["register_material"; "register_object"] body
      ∧ calls r
        = [mkCall "initialize_scene" []] ++ body
          ++ cameras_calls (global_transform camera0) 0 (camera_tfs camera0)
          ++ [mkCall "set_environment_map" [("path", PStr env_map_path)]].
Proof.
  apply (load_sends_scene_then_cameras one_box camera0 []
           (after (load one_box camera0 []))
           (calls (load one_box camera0 []))).
  apply run_as. vm_compute. reflexivity.
Defined.

Lemma failed_load_registers_no_camera_witness :
  all_funcs ["initialize_scene"; "register_material"; "register_object"]
    (calls (load nameless camera0 [])).
Proof.
  apply (failed_load_registers_no_camera nameless camera0 [] AssertionError
           (after (load nameless camera0 []))
           (calls (load nameless camera0 []))).
  apply run_as. vm_compute. reflexivity.
Defined.

Lemma load_tables_witness :
  ∃ nums tfss,
    num_link_geometries_by_link_name (after (load one_box camera0 []))
    = Some nums
    ∧ link_subgeometry_local_tfs_by_link_name
        (after (load one_box camera0 [])) = Some tfss
    ∧ (∀ k, is_Some (nums !! k) ↔ k ∈ map name one_box)
    ∧ (∀ k, is_Some (tfss !! k) ↔ k ∈ map name one_box)
    ∧ ∀ pre link post,
        one_box = pre ++ link :: post → name link ∉ map name post →
        nums !! name link = Some (num_geom link)
        ∧ tfss !! name link
          = Some (map local_tf (filter (λ g, visible g = true) (geom link))).
Proof.
  apply (load_tables one_box camera0 []
           (after (load one_box camera0 []))
           (calls (load one_box camera0 []))).
  apply run_as. vm_compute. reflexivity.
Defined.

Lemma publish_before_load_raises_witness :
  _DoPublish [pose "s::f" 0 identity] camera0 []
  = (Raise AttributeError, camera0, []).
Proof.
  apply (publish_before_load_raises (pose "s::f" 0 identity) []
           [identity] [] identity [] "s" "f").
  reflexivity.
Defined.

Lemma publish_unknown_link_raises_witness :
  _DoPublish [pose "t::g" 0 identity] (after (load one_box camera0 [])) []
  = (Raise KeyError, after (load one_box camera0 []), []).
Proof.
  apply (publish_unknown_link_raises one_box camera0 []
           (after (load one_box camera0 []))
           (calls (load one_box camera0 []))
           (pose "t::g" 0 identity) [] [] "t" "g").
  - apply run_as. vm_compute. reflexivity.
  - reflexivity.
  - simpl. intros [=]%list_elem_of_singleton.
Defined.

Lemma wrong_float_count_raises_witness :
  load_geom "s" "foo_box_1" 0 0 flat_box [] camera_with_rules []
  = (Raise AssertionError, camera_with_rules,
     map (override_call
            ("material_" +:+ _format_geom_name "s" "foo_box_1" 0 0))
       (matching (_format_geom_name "s" "foo_box_1" 0 0)
          (material_overrides camera_with_rules))).
Proof.
  apply (wrong_float_count_raises "s" "foo_box_1" 0 0 flat_box []
           camera_with_rules []).
  - vm_compute. reflexivity.
  - vm_compute. reflexivity.
  - vm_compute. reflexivity.
  - reflexivity.
Defined.

Lemma mesh_texture_reply_decides_colour_witness :
  @load_geom lib with_textures "s" "f" 0 0 mesh [] camera0 []
  = (Ok [local_tf mesh], camera0,
     [ texture_call ("material_" +:+ _format_geom_name "s" "f" 0 0)
         (str_drop_last3 (string_data mesh) +:+ "png");
       colour_call ("material_" +:+ _format_geom_name "s" "f" 0 0) mesh;
       mesh_call mesh (_format_geom_name "s" "f" 0 0)
         ("material_" +:+ _format_geom_name "s" "f" 0 0) ]).
Proof.
  apply (@mesh_texture_reply_decides_colour lib with_textures
           "s" "f" 0 0 mesh [] camera0 []).
  - reflexivity.
  - vm_compute. reflexivity.
  - vm_compute. reflexivity.
  - reflexivity.
  - reflexivity.
Defined.

(** ** The two exceptions that come from outside the method *)

(** A visible box whose quaternion is zero: the transform library raises
    [RuntimeError] before anything is registered for it. *)
Example zero_quaternion_raises :
  let r := load [mkLink "s::f" 0 [zero_quat_box]] camera0 [] in
  outcome r = Raise RuntimeError
  ∧ calls r = [mkCall "initialize_scene" []]
  ∧ forallb (link_ok (material_overrides camera0))
      [mkLink "s::f" 0 [zero_quat_box]] = false.
Proof. vm_compute. done. Qed.

(** A matching rule whose arguments contain [name]: the registration of
    its material raises [TypeError]; the rules before it have registered
    theirs. *)
Example rule_with_name_raises :
  let s := init [identity] [rule_box; rule_named; rule_any] identity in
  load_geom "s" "foo_box_1" 0 0 (box [0; 0; 0]%float 1) [] s []
  = (Raise TypeError, s,
     [override_call ("material_" +:+ _format_geom_name "s" "foo_box_1" 0 0)
        rule_box])
  ∧ forallb (link_ok (material_overrides s)) foo_box = false.
Proof. vm_compute. done. Qed.
